(** * Boer War Personas Bot: the chat gateway and the corpus maintenance script

    A shallow embedding of [app/main.py] (persona registry, reply generator,
    speech synthesizer, the [POST /chat] handler) and of
    [tools/update_personas.py], with the properties of the design document
    stated and settled against them.

    Conventions.
    - A Python [str] is a sequence of Unicode code points: [str := list N].
      Source literals are written with [lit "..."].
    - The two hosted services, the operating system's random source and the
      faults of the file system are the environment of the program.  They
      are collected in a record [Env] of oracles indexed by a clock, so that
      two calls with the same arguments may be answered differently.
    - Everything the handler can change is in [World]: the files, the
      console, the trace of outbound calls and the clock.
    - An error is an instance of Python's [Exception]; the handler's code is
      written in a state-and-exception monad [Py]. *)

From Stdlib Require Import String Ascii NArith ZArith List Lia.
From stdpp Require Import base option list gmap fin_maps countable numbers.

Open Scope N_scope.
Set Warnings "-register-all".

(** ** Python strings *)

Definition str := list N.

(** A source literal: one code point per character of the ASCII literal. *)
Definition lit (s : string) : str :=
  map N_of_ascii (list_ascii_of_string s).

(** [dict.get(key, default)] *)
Definition dict_get {V} (d : gmap str V) (key : str) (default : V) : V :=
  match d !! key with
  | Some v => v
  | None => default
  end.

(** ** The persona registry ([app/main.py], lines 33-38 and 87-93) *)

Definition boer_commando_jan_du_preez : str :=
  Eval cbv in lit "boer_commando_jan_du_preez".
Definition afrikaner_woman_camp_anna_van_der_merwe : str :=
  Eval cbv in lit "afrikaner_woman_camp_anna_van_der_merwe".
Definition black_man_with_boers_daniel_kgoathe : str :=
  Eval cbv in lit "black_man_with_boers_daniel_kgoathe".
Definition british_soldier_arthur_jennings : str :=
  Eval cbv in lit "british_soldier_arthur_jennings".

Definition PERSONA_NAMES : gmap str str :=
  <[ boer_commando_jan_du_preez := lit "Jan du Preez" ]>
  (<[ afrikaner_woman_camp_anna_van_der_merwe := lit "Anna van der Merwe" ]>
  (<[ black_man_with_boers_daniel_kgoathe := lit "Daniel Kgoathe" ]>
  (<[ british_soldier_arthur_jennings := lit "Private Arthur Jennings" ]> ∅))).

Definition voice_map : gmap str str :=
  <[ boer_commando_jan_du_preez := lit "onyx" ]>
  (<[ afrikaner_woman_camp_anna_van_der_merwe := lit "coral" ]>
  (<[ black_man_with_boers_daniel_kgoathe := lit "alloy" ]>
  (<[ british_soldier_arthur_jennings := lit "verse" ]> ∅))).

(** [persona_name = PERSONA_NAMES.get(persona_id, "Unknown persona")] *)
Definition persona_name (persona_id : str) : str :=
  dict_get PERSONA_NAMES persona_id (lit "Unknown persona").

(** [voice = voice_map.get(persona_id, "onyx")] *)
Definition voice (persona_id : str) : str :=
  dict_get voice_map persona_id (lit "onyx").

(** [persona_id in PERSONA_NAMES] *)
Definition is_valid (persona_id : str) : bool :=
  bool_decide (is_Some (PERSONA_NAMES !! persona_id)).

(** ** [str.strip()] *)

(** The code points Python treats as whitespace ([str.isspace]). *)
Definition isspace (c : N) : bool :=
  ((9 <=? c) && (c <=? 13)) || ((28 <=? c) && (c <=? 32))
  || (c =? 133) || (c =? 160) || (c =? 5760)
  || ((8192 <=? c) && (c <=? 8202))
  || (c =? 8232) || (c =? 8233) || (c =? 8239) || (c =? 8287) || (c =? 12288).

Fixpoint lstrip (s : str) : str :=
  match s with
  | c :: s' => if isspace c then lstrip s' else s
  | [] => []
  end.

Definition rstrip (s : str) : str := rev (lstrip (rev s)).

Definition strip (s : str) : str := rstrip (lstrip s).

(** ** JSON values, as [json.load] builds them *)

(** A [dict] keeps its keys in insertion order: an association list. *)
Inductive json :=
| JNull
| JBool (b : bool)
| JInt (z : Z)
| JFloat (bits : N)
| JStr (s : str)
| JArr (items : list json)
| JObj (fields : list (str * json)).

(** ** Exceptions and the monad of the handlers *)

(** An exception other than [HTTPException]: its class and [str(e)]. *)
Record PyError := { exc_type : str; exc_str : str }.

Inductive exn :=
| HTTPException (status_code : N) (detail : str)
| OtherException (e : PyError).

Inductive result (A : Type) :=
| Ok (a : A)
| Raise (e : exn).
Arguments Ok {A} a.
Arguments Raise {A} e.

Definition bytes := list Byte.byte.

(** A path, as [pathlib] keeps it: the list of its parts. *)
Definition Path := list str.

Record ChatMessage := { role : str; content : str }.

Inductive OutboundCall :=
| ChatCompletionsCreate (model : str) (messages : list ChatMessage)
| AudioSpeechCreate (model : str) (voice_arg : str) (input : str).

Inductive ConsoleEvent :=
| Stdout (line : str)            (* [print(...)] *)
| StderrTraceback (e : exn).     (* [traceback.print_exc()] *)

Record World := {
  fs : gmap Path bytes;          (* the files, by path *)
  console : list ConsoleEvent;   (* oldest first *)
  calls : list OutboundCall;     (* oldest first *)
  clock : nat;                   (* position in the environment's script *)
}.

Definition Py (A : Type) : Type := World → result A * World.

#[local] Instance Py_ret : MRet Py := λ A a w, (Ok a, w).
#[local] Instance Py_bind : MBind Py := λ A B f m w,
  match m w with
  | (Ok a, w') => f a w'
  | (Raise e, w') => (Raise e, w')
  end.

Definition raise {A} (e : exn) : Py A := λ w, (Raise e, w).

(** [try: body  except Exception as e: handler(e)] *)
Definition try_except {A} (body : Py A) (handler : exn → Py A) : Py A := λ w,
  match body w with
  | (Ok a, w') => (Ok a, w')
  | (Raise e, w') => handler e w'
  end.

Definition tick (w : World) : World :=
  {| fs := fs w; console := console w; calls := calls w; clock := S (clock w) |}.

Definition log_call (c : OutboundCall) (w : World) : World :=
  {| fs := fs w; console := console w; calls := calls w ++ [c]; clock := clock w |}.

Definition log_console (ev : ConsoleEvent) (w : World) : World :=
  {| fs := fs w; console := console w ++ [ev]; calls := calls w; clock := clock w |}.

Definition set_fs (f : gmap Path bytes) (w : World) : World :=
  {| fs := f; console := console w; calls := calls w; clock := clock w |}.

(** [str(e)] *)
Definition str_of_exn (e : exn) : str :=
  match e with
  | HTTPException code d => d
  | OtherException e => exc_str e
  end.

(** [print(a, b)]: the arguments separated by a space, then a newline. *)
Definition print2 (a b : str) : Py unit := λ w,
  (Ok tt, log_console (Stdout (a ++ lit " " ++ b ++ [10])) w).

(** [traceback.print_exc()] inside an [except] block handling [e]. *)
Definition traceback_print_exc (e : exn) : Py unit := λ w,
  (Ok tt, log_console (StderrTraceback e) w).

(** ** [pathlib] *)

Definition slash : N := 47.

(** The segments of [s] between slashes; [cur] is the segment being read,
    reversed. *)
Fixpoint split_slash (s : str) (cur : str) : list str :=
  match s with
  | [] => [rev cur]
  | c :: s' =>
      if c =? slash then rev cur :: split_slash s' [] else split_slash s' (c :: cur)
  end.

Definition is_part (seg : str) : bool :=
  negb (bool_decide (seg = [])) && negb (bool_decide (seg = lit ".")).

(** The parts a string contributes to a path: empty and [.] segments are
    dropped. *)
Definition components (s : str) : list str := List.filter is_part (split_slash s []).

(** [p / s]: an absolute [s] replaces [p]. *)
Definition path_div (p : Path) (s : str) : Path :=
  match s with
  | c :: _ => if c =? slash then [slash] :: components s else p ++ components s
  | [] => p
  end.

(** [p.name]: the final part. *)
Definition path_name (p : Path) : str := List.last p [].

(** ** [uuid.uuid4().hex] *)

(** [UUID(bytes=os.urandom(16), version=4).int]: the variant and version
    bits are forced. *)
Definition uuid4_int (random : N) : N :=
  let int := random mod 2 ^ 128 in
  let int := N.ldiff int (N.shiftl 0xc000 48) in
  let int := N.lor int (N.shiftl 0x8000 48) in
  let int := N.ldiff int (N.shiftl 0xf000 64) in
  N.lor int (N.shiftl 4 76).

Definition hexdigit (d : N) : N := if d <? 10 then 48 + d else 87 + d.

(** [width] lower-case hexadecimal digits, zero padded. *)
Fixpoint hex_digits (width : nat) (n : N) : str :=
  match width with
  | O => []
  | S k => hex_digits k (n / 16) ++ [hexdigit (n mod 16)]
  end.

(** ['%032x' % int] *)
Definition hex (int : N) : str := hex_digits 32 int.

(** ** The hosted services' answers *)

Record Choice := { message_content : option str }.
Record ChatCompletion := { choices : list Choice }.

(** The body of a streaming speech response: the chunks that arrive, and
    the error that ends the stream early, if any. *)
Record SpeechResponse := { chunks : list bytes; broken : option PyError }.

(** The environment of the process. Each oracle is read at the current
    clock. *)
Record Env := {
  ROOT_DIR : Path;
  os_urandom16 : nat → N;
  chat_completions : nat → str → list ChatMessage → PyError + ChatCompletion;
  audio_speech : nat → str → str → str → PyError + SpeechResponse;
  open_wb : nat → Path → option PyError;
}.

Section Gateway.

Variable env : Env.

Definition MEDIA_DIR : Path := path_div (ROOT_DIR env) (lit "media").
Definition WEB_DIR : Path := path_div (ROOT_DIR env) (lit "web").

(** [uuid.uuid4().hex] *)
Definition uuid4_hex : Py str := λ w,
  (Ok (hex (uuid4_int (os_urandom16 env (clock w)))), tick w).

(** [client.chat.completions.create(model=..., messages=...)] *)
Definition client_chat_completions_create
    (model : str) (messages : list ChatMessage) : Py ChatCompletion := λ w,
  let w' := tick (log_call (ChatCompletionsCreate model messages) w) in
  match chat_completions env (clock w) model messages with
  | inl e => (Raise (OtherException e), w')
  | inr chat => (Ok chat, w')
  end.

(** [client.audio.speech.with_streaming_response.create(...)], entered. *)
Definition client_audio_speech_create
    (model voice_arg input : str) : Py SpeechResponse := λ w,
  let w' := tick (log_call (AudioSpeechCreate model voice_arg input) w) in
  match audio_speech env (clock w) model voice_arg input with
  | inl e => (Raise (OtherException e), w')
  | inr response => (Ok response, w')
  end.

(** [f.write(data)] on a file opened for writing. *)
Definition file_write (file : Path) (data : bytes) (f : gmap Path bytes) : gmap Path bytes :=
  <[ file := default [] (f !! file) ++ data ]> f.

(** [response.stream_to_file(file)]: the file is opened (created or
    truncated), every chunk that arrives is written, and an error of the
    stream is raised after the chunks before it were written. *)
Definition stream_to_file (response : SpeechResponse) (file : Path) : Py unit := λ w,
  match open_wb env (clock w) file with
  | Some e => (Raise (OtherException e), tick w)
  | None =>
      let opened := <[ file := [] ]> (fs w) in
      let written := foldl (λ f data, file_write file data f) opened (chunks response) in
      let w' := set_fs written (tick w) in
      match broken response with
      | Some e => (Raise (OtherException e), w')
      | None => (Ok tt, w')
      end
  end.

(** ** The helpers and the route ([app/main.py], lines 60-115) *)

Record ChatInput := { persona_id : str; message : str; tts : bool }.

Record ChatOutput := { reply : str; audio_url : option str; avatar : option json }.

(** [l[0]] *)
Definition first_choice (l : list Choice) : Py Choice :=
  match l with
  | c :: _ => mret c
  | [] => raise (OtherException
            {| exc_type := lit "IndexError"; exc_str := lit "list index out of range" |})
  end.

(** [content.strip()], where [content] may be [None]. *)
Definition content_strip (c : option str) : Py str :=
  match c with
  | Some s => mret (strip s)
  | None => raise (OtherException
            {| exc_type := lit "AttributeError";
               exc_str := lit "'NoneType' object has no attribute 'strip'" |})
  end.

Definition system_prompt (persona_name : str) : str :=
  lit "You are " ++ persona_name
  ++ lit ", a historical persona from the Anglo-Boer War (1899" ++ [8211] ++ lit "1902). "
  ++ lit "Answer in the first person. For Afrikaans personas, reply in natural early 1900s Afrikaans.".

Definition generate_chat_reply (persona_id message : str) : Py str :=
  let persona_name := persona_name persona_id in
  let system_prompt := system_prompt persona_name in
  chat ← client_chat_completions_create (lit "gpt-4o-mini")
           [ {| role := lit "system"; content := system_prompt |};
             {| role := lit "user"; content := message |} ];
  choice ← first_choice (choices chat);
  content_strip (message_content choice).

(** The body of the [try] block of [synthesize_tts]. *)
Definition synthesize_tts_body (text voice : str) (out_path : Path) : Py (option str) :=
  response ← client_audio_speech_create (lit "gpt-4o-mini-tts") voice text;
  _ ← stream_to_file response out_path;
  mret (Some (lit "/media/" ++ path_name out_path)).

Definition synthesize_tts (text persona_id : str) : Py (option str) :=
  let voice := voice persona_id in
  token ← uuid4_hex;
  let out_path := path_div MEDIA_DIR (token ++ lit ".wav") in
  try_except
    (synthesize_tts_body text voice out_path)
    (λ e,
     _ ← print2 (lit "[TTS FAILED]") (str_of_exn e);
     _ ← traceback_print_exc e;
     mret None).

Definition chat_endpoint (inp : ChatInput) : Py ChatOutput :=
  if negb (is_valid (persona_id inp)) then
    raise (HTTPException 400 (lit "Unknown persona_id"))
  else
    reply ← generate_chat_reply (persona_id inp) (message inp);
    audio_url ← (if tts inp then synthesize_tts reply (persona_id inp) else mret None);
    mret {| reply := reply; audio_url := audio_url; avatar := None |}.

(** What the framework sends for [POST /chat]: the handler's value with
    status 200, an [HTTPException] with its own status, and any other
    exception as an internal server error. *)
Inductive Response :=
| JSONResponse (status : N) (body : ChatOutput)
| ErrorResponse (status : N) (detail : str).

Definition status_of (r : Response) : N :=
  match r with
  | JSONResponse s _ => s
  | ErrorResponse s _ => s
  end.

Definition post_chat (inp : ChatInput) (w : World) : Response * World :=
  match chat_endpoint inp w with
  | (Ok out, w') => (JSONResponse 200 out, w')
  | (Raise (HTTPException code d), w') => (ErrorResponse code d, w')
  | (Raise (OtherException _), w') => (ErrorResponse 500 (lit "Internal Server Error"), w')
  end.

End Gateway.

(** ** The maintenance script ([tools/update_personas.py]) *)

#[local] Instance result_ret : MRet result := λ A a, Ok a.
#[local] Instance result_bind : MBind result := λ A B f m,
  match m with
  | Ok a => f a
  | Raise e => Raise e
  end.

Definition TypeError {A} (msg : string) : result A :=
  Raise (OtherException {| exc_type := lit "TypeError"; exc_str := lit msg |}).

Definition KeyError {A} (key : str) : result A :=
  Raise (OtherException {| exc_type := lit "KeyError"; exc_str := [39] ++ key ++ [39] |}).

(** The first value stored under [key] in a [dict]. *)
Fixpoint dict_lookup (fields : list (str * json)) (key : str) : option json :=
  match fields with
  | [] => None
  | (k, v) :: rest => if bool_decide (k = key) then Some v else dict_lookup rest key
  end.

(** [d[key] = v] on a [dict]: the value is replaced in place, or the key is
    added at the end. *)
Fixpoint dict_store (fields : list (str * json)) (key : str) (v : json) : list (str * json) :=
  match fields with
  | [] => [(key, v)]
  | (k, old) :: rest =>
      if bool_decide (k = key) then (k, v) :: rest else (k, old) :: dict_store rest key v
  end.

(** [o[key]] for a string key. *)
Definition getitem (o : json) (key : str) : result json :=
  match o with
  | JObj fields =>
      match dict_lookup fields key with
      | Some v => Ok v
      | None => KeyError key
      end
  | JArr _ => TypeError "list indices must be integers or slices, not str"
  | JStr _ => TypeError "string indices must be integers, not 'str'"
  | JNull => TypeError "'NoneType' object is not subscriptable"
  | JBool _ => TypeError "'bool' object is not subscriptable"
  | JInt _ => TypeError "'int' object is not subscriptable"
  | JFloat _ => TypeError "'float' object is not subscriptable"
  end.

(** [o[key] = v] for a string key. *)
Definition setitem (o : json) (key : str) (v : json) : result json :=
  match o with
  | JObj fields => Ok (JObj (dict_store fields key v))
  | JArr _ => TypeError "list indices must be integers or slices, not str"
  | JStr _ => TypeError "'str' object does not support item assignment"
  | JNull => TypeError "'NoneType' object does not support item assignment"
  | JBool _ => TypeError "'bool' object does not support item assignment"
  | JInt _ => TypeError "'int' object does not support item assignment"
  | JFloat _ => TypeError "'float' object does not support item assignment"
  end.

(** [for p in o]: a list yields its items, a [dict] its keys, a string its
    characters. *)
Definition iterate (o : json) : result (list json) :=
  match o with
  | JArr items => Ok items
  | JObj fields => Ok (map (λ kv, JStr (fst kv)) fields)
  | JStr s => Ok (map (λ c, JStr [c]) s)
  | JNull => TypeError "'NoneType' object is not iterable"
  | JBool _ => TypeError "'bool' object is not iterable"
  | JInt _ => TypeError "'int' object is not iterable"
  | JFloat _ => TypeError "'float' object is not iterable"
  end.

Definition keep_ids : gset str :=
  {[ british_soldier_arthur_jennings;
     boer_commando_jan_du_preez;
     afrikaner_woman_camp_anna_van_der_merwe;
     black_man_with_boers_daniel_kgoathe ]}.

(** [v in keep_ids]: [v] is hashed first; no number, boolean or [None]
    equals a string. *)
Definition in_keep_ids (v : json) : result bool :=
  match v with
  | JStr s => Ok (bool_decide (s ∈ keep_ids))
  | JArr _ => TypeError "unhashable type: 'list'"
  | JObj _ => TypeError "unhashable type: 'dict'"
  | JNull | JBool _ | JInt _ | JFloat _ => Ok false
  end.

(** [[p for p in items if p["persona_id"] in keep_ids]] *)
Fixpoint keep_personas (items : list json) : result (list json) :=
  match items with
  | [] => Ok []
  | p :: rest =>
      pid ← getitem p (lit "persona_id");
      keep ← in_keep_ids pid;
      kept ← keep_personas rest;
      Ok (if (keep : bool) then p :: kept else kept)
  end.

(** The statement
    [corpus["personas"] = [p for p in corpus["personas"] if ...]]. *)
Definition update_corpus (corpus : json) : result json :=
  personas ← getitem corpus (lit "personas");
  items ← iterate personas;
  kept ← keep_personas items;
  setitem corpus (lit "personas") (JArr kept).

(** The script on the parsed content of the data file: the file after the
    run, and whether the run completed. The file is reopened for writing
    only after the corpus was filtered. *)
Definition update_personas (data : json) : result unit * json :=
  match update_corpus data with
  | Ok corpus => (Ok tt, corpus)
  | Raise e => (Raise e, data)
  end.

(** ** The corpus, in the words of the design document *)

(** The four persona ids of the allow-list. *)
Definition allow_list : list str :=
  [ british_soldier_arthur_jennings;
    boer_commando_jan_du_preez;
    afrikaner_woman_camp_anna_van_der_merwe;
    black_man_with_boers_daniel_kgoathe ].

(** Values Python can hash: everything but lists and dicts. *)
Definition hashable (v : json) : bool :=
  match v with
  | JArr _ | JObj _ => false
  | _ => true
  end.

(** The [persona_id] field of a record. *)
Definition persona_id_of (p : json) : option json :=
  match p with
  | JObj fields => dict_lookup fields (lit "persona_id")
  | _ => None
  end.

(** A persona record: an object with a hashable [persona_id]. *)
Definition is_persona_record (p : json) : bool :=
  match persona_id_of p with
  | Some v => hashable v
  | None => false
  end.

(** The record's [persona_id] is one of the four ids. *)
Definition allowed (p : json) : bool :=
  match persona_id_of p with
  | Some (JStr s) => bool_decide (s ∈ allow_list)
  | _ => false
  end.

Definition record (pid : string) (born : Z) : json :=
  JObj [ (lit "persona_id", JStr (lit pid)); (lit "born", JInt born) ].

Definition corpus0 : json :=
  JObj [ (lit "version", JInt 2);
         (lit "personas",
          JArr [ record "boer_commando_jan_du_preez" 1871;
                 record "cape_rebel_piet_fourie" 1880;
                 record "british_soldier_arthur_jennings" 1878;
                 record "boer_commando_jan_du_preez" 1872 ]);
         (lit "source", JStr (lit "archive")) ].

(** ** Names for what the handlers send, draw and log *)

(** The two-message exchange sent for a persona and a user message. *)
Definition reply_request (persona_id message : str) : OutboundCall :=
  ChatCompletionsCreate (lit "gpt-4o-mini")
    [ {| role := lit "system"; content := system_prompt (persona_name persona_id) |};
      {| role := lit "user"; content := message |} ].

(** The speech request sent for a text and a persona. *)
Definition speech_request (text persona_id : str) : OutboundCall :=
  AudioSpeechCreate (lit "gpt-4o-mini-tts") (voice persona_id) text.

(** The answer of the completion service to the request made at world [w]. *)
Definition completion_at (env : Env) (persona_id message : str) (w : World)
    : PyError + ChatCompletion :=
  chat_completions env (clock w) (lit "gpt-4o-mini")
    [ {| role := lit "system"; content := system_prompt (persona_name persona_id) |};
      {| role := lit "user"; content := message |} ].

(** The UUID drawn by a call of [synthesize_tts] that starts at world [w],
    the file name made from it and the path of that file. *)
Definition uuid_at (env : Env) (w : World) : N := uuid4_int (os_urandom16 env (clock w)).
Definition audio_name (env : Env) (w : World) : str := hex (uuid_at env w) ++ lit ".wav".
Definition audio_path (env : Env) (w : World) : Path := MEDIA_DIR env ++ [audio_name env w].

(** The answer of the speech service, and of opening the output file, in a
    call of [synthesize_tts] that starts at world [w]. *)
Definition speech_at (env : Env) (text persona_id : str) (w : World)
    : PyError + SpeechResponse :=
  audio_speech env (S (clock w)) (lit "gpt-4o-mini-tts") (voice persona_id) text.
Definition open_at (env : Env) (w : World) : option PyError :=
  open_wb env (S (S (clock w))) (audio_path env w).

(** What the [except] block of [synthesize_tts] leaves on the console. *)
Definition tts_failed (e : exn) (w : World) : World :=
  log_console (StderrTraceback e)
    (log_console (Stdout (lit "[TTS FAILED]" ++ lit " " ++ str_of_exn e ++ [10])) w).

(** The world in which [chat_endpoint] calls [synthesize_tts], when it was
    entered at [w] with a valid persona and the reply was generated. *)
Definition after_reply (persona_id message : str) (w : World) : World :=
  tick (log_call (reply_request persona_id message) w).

(** ** Concrete environments and requests *)

Definition srv_app : Path := [[slash]; lit "srv"; lit "app"].

Definition hallo : ChatCompletion :=
  {| choices := [ {| message_content := Some (lit "  Goeie dag, ek is Jan. ") |} ] |}.

Definition wav_body : SpeechResponse :=
  {| chunks := [[Byte.x52; Byte.x49]; [Byte.x46; Byte.x46]]; broken := None |}.

Definition timeout_error : PyError :=
  {| exc_type := lit "APITimeoutError"; exc_str := lit "Request timed out." |}.

(** Both services answer; every draw of the random source differs. *)
Definition env_ok : Env :=
  {| ROOT_DIR := srv_app;
     os_urandom16 := λ n, N.of_nat n;
     chat_completions := λ _ _ _, inr hallo;
     audio_speech := λ _ _ _ _, inr wav_body;
     open_wb := λ _ _, None |}.

(** The completion service answers with blanks only. *)
Definition env_blank : Env :=
  {| ROOT_DIR := srv_app;
     os_urandom16 := λ n, N.of_nat n;
     chat_completions := λ _ _ _,
       inr {| choices := [ {| message_content := Some (lit "   ") |} ] |};
     audio_speech := λ _ _ _ _, inr wav_body;
     open_wb := λ _ _, None |}.

(** The completion service is down. *)
Definition env_chat_down : Env :=
  {| ROOT_DIR := srv_app;
     os_urandom16 := λ n, N.of_nat n;
     chat_completions := λ _ _ _, inl timeout_error;
     audio_speech := λ _ _ _ _, inr wav_body;
     open_wb := λ _ _, None |}.

(** The speech service refuses the request. *)
Definition env_tts_down : Env :=
  {| ROOT_DIR := srv_app;
     os_urandom16 := λ n, N.of_nat n;
     chat_completions := λ _ _ _, inr hallo;
     audio_speech := λ _ _ _ _, inl timeout_error;
     open_wb := λ _ _, None |}.

(** The speech stream breaks after its first chunk. *)
Definition env_broken_stream : Env :=
  {| ROOT_DIR := srv_app;
     os_urandom16 := λ n, N.of_nat n;
     chat_completions := λ _ _ _, inr hallo;
     audio_speech := λ _ _ _ _,
       inr {| chunks := [[Byte.x52; Byte.x49]]; broken := Some timeout_error |};
     open_wb := λ _ _, None |}.

(** Both services answer; the random source gives the same bytes at every
    draw. *)
Definition env_same_random : Env :=
  {| ROOT_DIR := srv_app;
     os_urandom16 := λ _, 7;
     chat_completions := λ _ _ _, inr hallo;
     audio_speech := λ _ _ _ _, inr wav_body;
     open_wb := λ _ _, None |}.

Definition world0 : World := {| fs := ∅; console := []; calls := []; clock := 0 |}.

Definition ask_jan (tts : bool) : ChatInput :=
  {| persona_id := boer_commando_jan_du_preez; message := lit "Hello"; tts := tts |}.

Definition ask_napoleon : ChatInput :=
  {| persona_id := lit "napoleon"; message := lit "Hello"; tts := true |}.


(** ** The no-cache middleware ([app/main.py], lines 50-57) *)

(** [s.startswith(prefix)] *)
Fixpoint startswith (s prefix : str) : bool :=
  match prefix, s with
  | [], _ => true
  | _ :: _, [] => false
  | p :: prefix', c :: s' => (c =? p) && startswith s' prefix'
  end.

(** Lower case of an ASCII header name. *)
Definition ascii_lower (s : str) : str :=
  map (λ c, if (65 <=? c) && (c <=? 90) then c + 32 else c) s.

(** A response as the middleware sees it. The headers are the raw list of
    the framework, names in lower case, in the order they are sent. *)
Record HttpResponse := {
  resp_status : N;
  resp_headers : list (str * str);
  resp_body : bytes;
}.

(** The raw list after [headers[key] = value], for a lower-case [key]: the
    first entry of that name is replaced and later ones are removed; a name
    that is not there is added at the end. *)
Fixpoint headers_set (key value : str) (raw : list (str * str)) : list (str * str) :=
  match raw with
  | [] => [(key, value)]
  | (k, v) :: rest =>
      if bool_decide (k = key)
      then (key, value) :: List.filter (λ kv, negb (bool_decide (fst kv = key))) rest
      else (k, v) :: headers_set key value rest
  end.

(** [headers[key] = value] *)
Definition headers_setitem (key value : str) (raw : list (str * str)) : list (str * str) :=
  headers_set (ascii_lower key) value raw.

(** [headers.get(key)]: the first entry of that name. *)
Fixpoint headers_get (key : str) (raw : list (str * str)) : option str :=
  match raw with
  | [] => None
  | (k, v) :: rest => if bool_decide (k = key) then Some v else headers_get key rest
  end.

(** [no_cache_for_ui(request, call_next)], with [path = request.url.path]. *)
Definition no_cache_for_ui (path : str) (call_next : Py HttpResponse) : Py HttpResponse :=
  resp ← call_next;
  if startswith path (lit "/ui/") then
    let h := resp_headers resp in
    let h := headers_setitem (lit "Cache-Control")
               (lit "no-store, no-cache, must-revalidate, max-age=0") h in
    let h := headers_setitem (lit "Pragma") (lit "no-cache") h in
    let h := headers_setitem (lit "Expires") (lit "0") h in
    mret {| resp_status := resp_status resp; resp_headers := h; resp_body := resp_body resp |}
  else
    mret resp.

(** ** The API key: start-up check and [/_env] ([app/main.py], lines 24-29
    and 130-134) *)

(** [os.getenv(name, default)] on the environment of the process. *)
Definition os_getenv (environ : gmap str str) (name default : str) : str :=
  dict_get environ name default.




(** [key[:n]] and [key[-n:]] *)
Definition slice_to (n : nat) (s : str) : str := take n s.
Definition slice_last (n : nat) (s : str) : str := drop (length s - n) s.

Definition ellipsis : N := 8230.

Record EnvReport := {
  OPENAI_API_KEY_present : bool;
  OPENAI_API_KEY_masked : str;
  env_file : str;
}.

(** The expression bound to [masked]. *)
Definition masked_key (key : str) : str :=
  if startswith key (lit "sk-") && (10 <? length key)%nat
  then slice_to 6 key ++ [ellipsis] ++ slice_last 4 key
  else lit "(not set/looks odd)".

(** [_env()]; [resolved] is [str((ROOT_DIR / '.env').resolve())], which
    depends on the links of the file system. *)
Definition _env (environ : gmap str str) (resolved : str) : EnvReport :=
  let key := os_getenv environ (lit "OPENAI_API_KEY") [] in
  {| OPENAI_API_KEY_present := negb (bool_decide (key = []));
     OPENAI_API_KEY_masked := masked_key key;
     env_file := resolved |}.

(** ** More concrete data *)

Definition index_page : HttpResponse :=
  {| resp_status := 200;
     resp_headers := [ (lit "content-type", lit "text/html");
                       (lit "cache-control", lit "max-age=3600");
                       (lit "etag", lit "abc") ];
     resp_body := [Byte.x3c] |}.

Definition serve_index : Py HttpResponse := λ w, (Ok index_page, w).

Definition environ0 : gmap str str :=
  {[ lit "OPENAI_API_KEY" := lit "sk-proj-0123456789abcdef"; lit "HOME" := lit "/root" ]}.

Definition no_choice : ChatCompletion := {| choices := [] |}.

(** The completion service answers without a choice. *)
Definition env_no_choice : Env :=
  {| ROOT_DIR := srv_app;
     os_urandom16 := λ n, N.of_nat n;
     chat_completions := λ _ _ _, inr no_choice;
     audio_speech := λ _ _ _ _, inr wav_body;
     open_wb := λ _ _, None |}.

Definition corpus_bad : json :=
  JObj [ (lit "personas",
          JArr [ record "boer_commando_jan_du_preez" 1871;
                 JObj [ (lit "name", JStr (lit "no id")) ] ]) ].

(** The reply carried by a response, if it carries one. *)
Definition response_reply (r : Response) : option str :=
  match r with
  | JSONResponse _ out => Some (reply out)
  | ErrorResponse _ _ => None
  end.

(** * Properties *)

Arguments hex : simpl never.
Arguments uuid4_int : simpl never.
Arguments lit : simpl never.

(** ** Strings *)

Lemma lstrip_head s c t : lstrip s = c :: t → isspace c = false.
Proof.
  induction s as [|a s IH]; simpl; [discriminate|].
  destruct (isspace a) eqn:Ha; [exact IH|].
  intros [= <- _]. exact Ha.
Qed.

Lemma lstrip_nil_iff s : lstrip s = [] ↔ Forall (λ c, isspace c = true) s.
Proof.
  induction s as [|a s IH]; simpl.
  - split; [intros _; constructor | done].
  - destruct (isspace a) eqn:Ha.
    + rewrite IH. split; [by constructor | by inversion 1].
    + split; [discriminate | inversion 1; congruence].
Qed.

Lemma lstrip_all_space s :
  Forall (λ c, isspace c = true) (lstrip s) ↔ Forall (λ c, isspace c = true) s.
Proof.
  rewrite <- (lstrip_nil_iff s). split.
  - destruct (lstrip s) as [|c t] eqn:E; [done|].
    inversion 1; subst. apply lstrip_head in E. congruence.
  - intros ->. constructor.
Qed.

Lemma Forall_rev_iff {A} (P : A → Prop) (l : list A) : Forall P (rev l) ↔ Forall P l.
Proof.
  split; intros H; [|by apply Forall_rev].
  rewrite <- (rev_involutive l). by apply Forall_rev.
Qed.

Lemma strip_nil_iff s : strip s = [] ↔ Forall (λ c, isspace c = true) s.
Proof.
  unfold strip, rstrip.
  rewrite <- (lstrip_all_space s), <- (Forall_rev_iff _ (lstrip s)), <- lstrip_nil_iff.
  split.
  - intros H. apply (f_equal (@rev N)) in H. by rewrite rev_involutive in H.
  - by intros ->.
Qed.

(** A reply is non-empty exactly when the text has a character that is not
    whitespace. *)
Lemma strip_nonempty_iff s : strip s ≠ [] ↔ ∃ c, c ∈ s ∧ isspace c = false.
Proof.
  rewrite strip_nil_iff, <- Exists_Forall_neg.
  - rewrite Exists_exists. split; intros (c & Hc & Hs); exists c.
    + split; [by apply list_elem_of_In | by destruct (isspace c)].
    + split; [by apply list_elem_of_In | by rewrite Hs].
  - intros c. destruct (isspace c); auto.
Qed.

(** ** Paths *)

Lemma split_slash_no_slash s cur :
  Forall (λ c, c ≠ slash) s → split_slash s cur = [rev cur ++ s].
Proof.
  revert cur. induction s as [|a s IH]; intros cur Hs; simpl.
  - by rewrite app_nil_r.
  - inversion Hs as [|? ? Ha Hs']; subst.
    destruct (N.eqb_spec a slash); [done|].
    rewrite IH by done. simpl. by rewrite <- app_assoc.
Qed.

Lemma path_div_file p s :
  Forall (λ c, c ≠ slash) s → s ≠ [] → s ≠ lit "." → path_div p s = p ++ [s].
Proof.
  intros Hs Hne Hdot. unfold path_div.
  destruct s as [|c s'] eqn:E; [done|]. rewrite <- E in *.
  assert (c ≠ slash) as Hc by (subst s; by inversion Hs).
  destruct (N.eqb_spec c slash); [done|].
  unfold components. rewrite split_slash_no_slash by done. simpl.
  unfold is_part. rewrite !bool_decide_eq_false_2 by done. done.
Qed.

Lemma path_name_file p s : path_name (p ++ [s]) = s.
Proof. apply last_last. Qed.

(** ** Hexadecimal tokens *)

Lemma hexdigit_no_slash d : hexdigit d ≠ slash.
Proof. unfold hexdigit, slash. destruct (d <? 10); lia. Qed.

Lemma hexdigit_inj a b : a < 16 → b < 16 → hexdigit a = hexdigit b → a = b.
Proof.
  unfold hexdigit. intros Ha Hb.
  destruct (N.ltb_spec a 10), (N.ltb_spec b 10); lia.
Qed.

Lemma hex_digits_length k n : length (hex_digits k n) = k.
Proof.
  revert n. induction k as [|k IH]; intros n; simpl; [done|].
  rewrite length_app, IH. simpl. lia.
Qed.

Lemma hex_digits_no_slash k n : Forall (λ c, c ≠ slash) (hex_digits k n).
Proof.
  revert n. induction k as [|k IH]; intros n; simpl; [constructor|].
  apply Forall_app. split; [apply IH|].
  constructor; [apply hexdigit_no_slash | constructor].
Qed.

Lemma hex_digits_inj k n m :
  n < 16 ^ N.of_nat k → m < 16 ^ N.of_nat k →
  hex_digits k n = hex_digits k m → n = m.
Proof.
  revert n m. induction k as [|k IH]; intros n m Hn Hm E.
  - simpl in *. lia.
  - simpl in E. apply app_inj_tail in E as [E1 E2].
    rewrite Nat2N.inj_succ, N.pow_succ_r' in Hn, Hm.
    assert (n / 16 = m / 16) as Hq.
    { apply IH; [| |done]; apply N.Div0.div_lt_upper_bound; lia. }
    apply hexdigit_inj in E2; [|apply N.mod_lt; lia..].
    rewrite (N.div_mod n 16), (N.div_mod m 16) by lia. congruence.
Qed.

Lemma lor_lt_pow2 a b n : a < 2 ^ n → b < 2 ^ n → N.lor a b < 2 ^ n.
Proof.
  intros Ha Hb.
  destruct (N.eq_dec a 0) as [->|Ha0]; [by rewrite N.lor_0_l|].
  destruct (N.eq_dec b 0) as [->|Hb0]; [by rewrite N.lor_0_r|].
  assert (N.lor a b ≠ 0) as Hab by (rewrite N.lor_eq_0_iff; tauto).
  apply N.log2_lt_pow2; [lia|].
  apply N.log2_lt_pow2 in Ha; [|lia].
  apply N.log2_lt_pow2 in Hb; [|lia].
  rewrite N.log2_lor. lia.
Qed.

Lemma ldiff_lt_pow2 a b n : a < 2 ^ n → N.ldiff a b < 2 ^ n.
Proof. intros Ha. pose proof (N.ldiff_le_l a b). lia. Qed.

Lemma uuid4_int_bound random : uuid4_int random < 2 ^ 128.
Proof.
  unfold uuid4_int.
  apply lor_lt_pow2; [|by vm_compute].
  apply ldiff_lt_pow2, lor_lt_pow2; [|by vm_compute].
  apply ldiff_lt_pow2, N.mod_lt. by vm_compute.
Qed.

(** Distinct UUIDs have distinct tokens. *)
Lemma hex_uuid4_inj r1 r2 :
  hex (uuid4_int r1) = hex (uuid4_int r2) → uuid4_int r1 = uuid4_int r2.
Proof.
  apply hex_digits_inj; change (16 ^ N.of_nat 32) with (2 ^ 128);
    apply uuid4_int_bound.
Qed.

(** The file name of a token, and where [synthesize_tts] puts it. *)
Lemma audio_name_is_file int :
  let name := hex int ++ lit ".wav" in
  Forall (λ c, c ≠ slash) name ∧ name ≠ [] ∧ name ≠ lit ".".
Proof.
  cbv zeta. split; [|split].
  - apply Forall_app. split; [apply hex_digits_no_slash|].
    by repeat constructor.
  - intros H. apply (f_equal length) in H.
    rewrite length_app in H. unfold hex in H. rewrite hex_digits_length in H.
    simpl in H. lia.
  - intros H. apply (f_equal length) in H.
    rewrite length_app in H. unfold hex in H. rewrite hex_digits_length in H.
    simpl in H. lia.
Qed.

Lemma out_path_of_token p int :
  path_div p (hex int ++ lit ".wav") = p ++ [hex int ++ lit ".wav"].
Proof.
  destruct (audio_name_is_file int) as (H1 & H2 & H3). by apply path_div_file.
Qed.

(** ** The registry *)

Lemma registry_same_keys pid : voice_map !! pid = None ↔ PERSONA_NAMES !! pid = None.
Proof.
  unfold voice_map, PERSONA_NAMES.
  rewrite !lookup_insert_None, !lookup_empty. tauto.
Qed.

Lemma is_valid_true pid : is_valid pid = true ↔ is_Some (PERSONA_NAMES !! pid).
Proof. unfold is_valid. apply bool_decide_eq_true. Qed.

Lemma is_valid_false pid : is_valid pid = false ↔ PERSONA_NAMES !! pid = None.
Proof.
  unfold is_valid. rewrite bool_decide_eq_false, <- eq_None_not_Some. done.
Qed.

(** ** The file written by [stream_to_file] *)

Lemma foldl_file_write (file : Path) (chunks : list bytes) (acc : bytes)
    (f : gmap Path bytes) :
  foldl (λ f data, file_write file data f) (<[ file := acc ]> f) chunks
  = <[ file := acc ++ concat chunks ]> f.
Proof.
  revert acc. induction chunks as [|c chunks IH]; intros acc; simpl.
  - by rewrite app_nil_r.
  - unfold file_write at 2. rewrite lookup_insert_eq, insert_insert_eq. simpl.
    rewrite IH. by rewrite <- app_assoc.
Qed.

Lemma stream_to_file_eq env response file w :
  stream_to_file env response file w =
  match open_wb env (clock w) file with
  | Some e => (Raise (OtherException e), tick w)
  | None =>
      (match broken response with
       | Some e => Raise (OtherException e)
       | None => Ok tt
       end,
       set_fs (<[ file := concat (chunks response) ]> (fs w)) (tick w))
  end.
Proof.
  unfold stream_to_file. destruct (open_wb env (clock w) file); [done|].
  rewrite foldl_file_write. simpl. by destruct (broken response).
Qed.

(** ** The reply generator *)

Ltac unfold_py :=
  unfold mbind, mret, Py_bind, Py_ret, raise, try_except in *.

Lemma generate_chat_reply_world env pid msg w :
  snd (generate_chat_reply env pid msg w) = after_reply pid msg w.
Proof.
  unfold generate_chat_reply, client_chat_completions_create, first_choice,
    content_strip, after_reply, reply_request. unfold_py.
  destruct (chat_completions _ _ _ _) as [e|[[|[[s|]] rest]]]; reflexivity.
Qed.

Lemma generate_chat_reply_fails env pid msg w e :
  completion_at env pid msg w = inl e →
  generate_chat_reply env pid msg w = (Raise (OtherException e), after_reply pid msg w).
Proof.
  unfold completion_at. intros H.
  unfold generate_chat_reply, client_chat_completions_create. unfold_py.
  by rewrite H.
Qed.

Lemma generate_chat_reply_ok_inv env pid msg w reply w1 :
  generate_chat_reply env pid msg w = (Ok reply, w1) →
  ∃ chat c s,
    completion_at env pid msg w = inr chat ∧ head (choices chat) = Some c ∧
    message_content c = Some s ∧ reply = strip s ∧ w1 = after_reply pid msg w.
Proof.
  unfold generate_chat_reply, client_chat_completions_create, first_choice,
    content_strip, completion_at, after_reply, reply_request. unfold_py.
  destruct (chat_completions _ _ _ _) as [e|[[|[[s|]] rest]]]; simpl;
    intros [= <- <-]. by eexists _, _, _.
Qed.

Lemma generate_chat_reply_raise_inv env pid msg w e w1 :
  generate_chat_reply env pid msg w = (Raise e, w1) →
  (∃ err, e = OtherException err) ∧ w1 = after_reply pid msg w.
Proof.
  unfold generate_chat_reply, client_chat_completions_create, first_choice,
    content_strip, after_reply, reply_request. unfold_py.
  destruct (chat_completions _ _ _ _) as [e'|[[|[[s|]] rest]]]; simpl;
    intros [= <- <-]; eauto.
Qed.

(** ** The speech synthesizer *)

(** The whole behaviour of [synthesize_tts], by the answers of the
    environment. *)
Lemma synthesize_tts_eq env text pid w :
  synthesize_tts env text pid w =
  let w2 := tick (log_call (speech_request text pid) (tick w)) in
  match speech_at env text pid w with
  | inl e => (Ok None, tts_failed (OtherException e) w2)
  | inr response =>
      match open_at env w with
      | Some e => (Ok None, tts_failed (OtherException e) (tick w2))
      | None =>
          let w3 :=
            set_fs (<[ audio_path env w := concat (chunks response) ]> (fs w)) (tick w2) in
          match broken response with
          | Some e => (Ok None, tts_failed (OtherException e) w3)
          | None => (Ok (Some (lit "/media/" ++ audio_name env w)), w3)
          end
      end
  end.
Proof.
  unfold synthesize_tts, synthesize_tts_body, uuid4_hex, client_audio_speech_create,
    speech_at, open_at, audio_path, audio_name, uuid_at, speech_request.
  unfold_py. cbv zeta.
  rewrite out_path_of_token. simpl clock.
  destruct (audio_speech _ _ _ _ _) as [e|response]; [reflexivity|].
  rewrite stream_to_file_eq. simpl clock.
  destruct (open_wb _ _ _) as [e|]; [reflexivity|].
  rewrite path_name_file.
  destruct (broken response) as [e|]; reflexivity.
Qed.

(** [synthesize_tts] returns; it never raises. *)
Lemma synthesize_tts_returns env text pid w :
  ∃ url w', synthesize_tts env text pid w = (Ok url, w').
Proof.
  rewrite synthesize_tts_eq. cbv zeta.
  destruct (speech_at _ _ _ _) as [e|response]; [by eexists _, _|].
  destruct (open_at _ _) as [e|]; [by eexists _, _|].
  destruct (broken response) as [e|]; by eexists _, _.
Qed.

(** Every call of [synthesize_tts] makes one speech request and no other
    outbound call. *)
Lemma synthesize_tts_calls env text pid w :
  calls (snd (synthesize_tts env text pid w)) = calls w ++ [speech_request text pid].
Proof.
  rewrite synthesize_tts_eq. cbv zeta.
  destruct (speech_at _ _ _ _) as [e|response]; [reflexivity|].
  destruct (open_at _ _) as [e|]; [reflexivity|].
  destruct (broken response) as [e|]; reflexivity.
Qed.

(** ** The route *)

Lemma chat_endpoint_valid env inp w :
  is_valid (persona_id inp) = true →
  chat_endpoint env inp w =
  match generate_chat_reply env (persona_id inp) (message inp) w with
  | (Ok reply, w1) =>
      if tts inp then
        match synthesize_tts env reply (persona_id inp) w1 with
        | (Ok url, w2) => (Ok {| reply := reply; audio_url := url; avatar := None |}, w2)
        | (Raise e, w2) => (Raise e, w2)
        end
      else (Ok {| reply := reply; audio_url := None; avatar := None |}, w1)
  | (Raise e, w1) => (Raise e, w1)
  end.
Proof.
  intros Hv. unfold chat_endpoint. rewrite Hv. simpl. unfold_py.
  destruct (generate_chat_reply _ _ _ _) as [[reply|e] w1]; [|reflexivity].
  destruct (tts inp); [|reflexivity].
  by destruct (synthesize_tts _ _ _ _) as [[url|e] w2].
Qed.

Lemma post_chat_json_inv env inp w status out w' :
  post_chat env inp w = (JSONResponse status out, w') →
  chat_endpoint env inp w = (Ok out, w') ∧ status = 200.
Proof.
  unfold post_chat.
  destruct (chat_endpoint env inp w) as [[o|[code d|e]] w1]; intros [= <- <- <-] || intros [=].
  done.
Qed.

Lemma chat_endpoint_ok_valid env inp w out w' :
  chat_endpoint env inp w = (Ok out, w') → is_valid (persona_id inp) = true.
Proof.
  unfold chat_endpoint. destruct (is_valid (persona_id inp)); [done|].
  simpl. unfold raise. discriminate.
Qed.

(** [synthesize_tts] is its [try] body, with every exception of the body
    turned into [None] and two lines on the console. *)
Lemma synthesize_tts_try env text pid w :
  synthesize_tts env text pid w =
  match synthesize_tts_body env text (voice pid) (audio_path env w) (tick w) with
  | (Ok url, w') => (Ok url, w')
  | (Raise e, w') => (Ok None, tts_failed e w')
  end.
Proof.
  unfold synthesize_tts, uuid4_hex, audio_path, audio_name, uuid_at. unfold_py.
  rewrite out_path_of_token.
  by destruct (synthesize_tts_body _ _ _ _ _) as [[url|e] w'].
Qed.

(** The body raises in three ways: the request is refused, the output file
    cannot be opened, or the stream breaks. *)
Lemma synthesize_tts_body_raise_inv env text pid w e w' :
  synthesize_tts_body env text (voice pid) (audio_path env w) (tick w) = (Raise e, w') →
  ∃ err, e = OtherException err ∧
    (speech_at env text pid w = inl err
     ∨ (∃ response, speech_at env text pid w = inr response ∧
          (open_at env w = Some err
           ∨ (open_at env w = None ∧ broken response = Some err)))).
Proof.
  unfold synthesize_tts_body, client_audio_speech_create, speech_at, open_at.
  unfold_py. simpl clock.
  destruct (audio_speech _ _ _ _ _) as [err|response].
  { intros [= <- <-]. eauto. }
  rewrite stream_to_file_eq. simpl clock.
  destruct (open_wb _ _ _) as [err|].
  { intros [= <- <-]. eauto 10. }
  destruct (broken response) as [err|] eqn:Hb; [|intros [=]].
  intros [= <- <-]. eauto 10.
Qed.

(** C1. A chat request whose persona id is not a key of the registry is
    answered with status 400 and the detail "Unknown persona_id"; the world
    is left as it was, so neither the completion service nor the speech
    service was called. *)
Theorem C1_unknown_persona_rejected env inp w :
  PERSONA_NAMES !! persona_id inp = None →
  post_chat env inp w = (ErrorResponse 400 (lit "Unknown persona_id"), w)
  ∧ calls (snd (post_chat env inp w)) = calls w.
Proof.
  intros H. apply is_valid_false in H.
  assert (post_chat env inp w = (ErrorResponse 400 (lit "Unknown persona_id"), w)) as E.
  { unfold post_chat, chat_endpoint. by rewrite H. }
  by rewrite E.
Qed.

Lemma C1_witness :
  PERSONA_NAMES !! persona_id ask_napoleon = None
  ∧ post_chat env_ok ask_napoleon world0
    = (ErrorResponse 400 (lit "Unknown persona_id"), world0).
Proof.
  split; [by vm_compute|].
  apply (C1_unknown_persona_rejected env_ok ask_napoleon world0). by vm_compute.
Defined.

(** C2. When the reply was generated and the body of the [try] block of the
    synthesizer raises an error [e], whether from the speech request or from
    writing the file, [synthesize_tts] returns [None] without raising, after
    printing "[TTS FAILED]" with the error's message and the stack trace;
    the chat request is answered with status 200, the generated reply and no
    audio url. *)
Theorem C2_synthesis_failure_is_soft env inp w reply w1 e w2 :
  is_valid (persona_id inp) = true →
  tts inp = true →
  generate_chat_reply env (persona_id inp) (message inp) w = (Ok reply, w1) →
  synthesize_tts_body env reply (voice (persona_id inp)) (audio_path env w1) (tick w1)
    = (Raise e, w2) →
  synthesize_tts env reply (persona_id inp) w1 = (Ok None, tts_failed e w2)
  ∧ console (tts_failed e w2)
    = console w2 ++ [ Stdout (lit "[TTS FAILED]" ++ lit " " ++ str_of_exn e ++ [10]);
                      StderrTraceback e ]
  ∧ post_chat env inp w
    = (JSONResponse 200 {| reply := reply; audio_url := None; avatar := None |},
       tts_failed e w2).
Proof.
  intros Hv Htts Hreply Hbody.
  assert (synthesize_tts env reply (persona_id inp) w1 = (Ok None, tts_failed e w2)) as Hs.
  { by rewrite synthesize_tts_try, Hbody. }
  split; [exact Hs|]. split.
  - unfold tts_failed, log_console. simpl. by rewrite <- app_assoc.
  - unfold post_chat. by rewrite chat_endpoint_valid, Hreply, Htts, Hs.
Qed.

Lemma C2_witness :
  fst (post_chat env_tts_down (ask_jan true) world0)
  = JSONResponse 200
      {| reply := lit "Goeie dag, ek is Jan."; audio_url := None; avatar := None |}.
Proof.
  destruct (C2_synthesis_failure_is_soft env_tts_down (ask_jan true) world0
              (lit "Goeie dag, ek is Jan.")
              (after_reply boer_commando_jan_du_preez (lit "Hello") world0)
              (OtherException timeout_error)
              (tick (log_call
                 (speech_request (lit "Goeie dag, ek is Jan.") boer_commando_jan_du_preez)
                 (tick (after_reply boer_commando_jan_du_preez (lit "Hello") world0)))))
    as (_ & _ & H); [by vm_compute..|].
  by rewrite H.
Defined.

(** C3. With a valid persona id, when the completion service fails with an
    error, the generator raises that error, the request is answered with
    status 500 and no reply, and the only outbound call made is the
    completion request: the speech service is not called and no file is
    written. *)
Theorem C3_reply_failure_is_hard env inp w err :
  is_valid (persona_id inp) = true →
  completion_at env (persona_id inp) (message inp) w = inl err →
  let w' := after_reply (persona_id inp) (message inp) w in
  generate_chat_reply env (persona_id inp) (message inp) w = (Raise (OtherException err), w')
  ∧ post_chat env inp w = (ErrorResponse 500 (lit "Internal Server Error"), w')
  ∧ calls w' = calls w ++ [reply_request (persona_id inp) (message inp)]
  ∧ fs w' = fs w.
Proof.
  intros Hv Herr w'.
  pose proof (generate_chat_reply_fails _ _ _ _ _ Herr) as Hg.
  split; [exact Hg|]. split; [|done].
  unfold post_chat. by rewrite chat_endpoint_valid, Hg.
Qed.

Lemma C3_witness :
  post_chat env_chat_down (ask_jan true) world0
  = (ErrorResponse 500 (lit "Internal Server Error"),
     after_reply boer_commando_jan_du_preez (lit "Hello") world0).
Proof.
  apply (C3_reply_failure_is_hard env_chat_down (ask_jan true) world0 timeout_error);
    by vm_compute.
Defined.

(** Any exception of the generator, also an answer without a usable
    completion, ends the request with status 500 before the synthesizer. *)
Lemma reply_error_is_server_error env inp w e w1 :
  is_valid (persona_id inp) = true →
  generate_chat_reply env (persona_id inp) (message inp) w = (Raise e, w1) →
  post_chat env inp w = (ErrorResponse 500 (lit "Internal Server Error"), w1)
  ∧ calls w1 = calls w ++ [reply_request (persona_id inp) (message inp)].
Proof.
  intros Hv Hg.
  destruct (generate_chat_reply_raise_inv _ _ _ _ _ _ Hg) as [[err ->] ->].
  split; [|done]. unfold post_chat. by rewrite chat_endpoint_valid, Hg.
Qed.

(** A chat call that answers with an audio url: what the environment did. *)
Lemma chat_endpoint_audio_inv env inp w out w' url :
  chat_endpoint env inp w = (Ok out, w') →
  audio_url out = Some url →
  let w1 := after_reply (persona_id inp) (message inp) w in
  ∃ response,
    generate_chat_reply env (persona_id inp) (message inp) w = (Ok (reply out), w1)
    ∧ speech_at env (reply out) (persona_id inp) w1 = inr response
    ∧ open_at env w1 = None
    ∧ broken response = None
    ∧ url = lit "/media/" ++ audio_name env w1
    ∧ w' = set_fs (<[ audio_path env w1 := concat (chunks response) ]> (fs w1))
             (tick (tick (log_call (speech_request (reply out) (persona_id inp)) (tick w1)))).
Proof.
  intros Hc Hurl w1. pose proof (chat_endpoint_ok_valid _ _ _ _ _ Hc) as Hv.
  rewrite (chat_endpoint_valid _ _ _ Hv) in Hc.
  destruct (generate_chat_reply _ _ _ _) as [[r|e] w1'] eqn:Hg; [|done].
  pose proof (generate_chat_reply_world env (persona_id inp) (message inp) w) as Hw.
  rewrite Hg in Hw. simpl in Hw. subst w1'. fold w1 in Hc, Hg.
  destruct (tts inp).
  2:{ injection Hc as <- <-. simpl in Hurl. done. }
  rewrite synthesize_tts_eq in Hc. cbv zeta in Hc.
  destruct (speech_at _ _ _ _) as [e|response] eqn:Hs.
  { injection Hc as <- <-. done. }
  destruct (open_at _ _) as [e|] eqn:Ho.
  { injection Hc as <- <-. done. }
  destruct (broken response) as [e|] eqn:Hb; injection Hc as <- <-; [done|].
  simpl in Hurl. injection Hurl as <-. simpl.
  exists response. by rewrite Hs.
Qed.

(** C4. When a chat response carries an audio url, the url is "/media/"
    followed by the file name made of the 32 hexadecimal digits of the UUID
    drawn in that call and ".wav"; the speech stream ended without an error,
    and when the response is sent the file of that name in the media
    directory holds every chunk of the stream. *)
Theorem C4_audio_url_names_written_file env inp w status out w' url :
  post_chat env inp w = (JSONResponse status out, w') →
  audio_url out = Some url →
  let w1 := after_reply (persona_id inp) (message inp) w in
  let filename := hex (uuid_at env w1) ++ lit ".wav" in
  url = lit "/media/" ++ filename
  ∧ ∃ response,
      speech_at env (reply out) (persona_id inp) w1 = inr response
      ∧ broken response = None
      ∧ fs w' !! (MEDIA_DIR env ++ [filename]) = Some (concat (chunks response)).
Proof.
  intros Hp Hurl w1 filename. apply post_chat_json_inv in Hp as [Hc _].
  destruct (chat_endpoint_audio_inv _ _ _ _ _ _ Hc Hurl)
    as (response & _ & Hs & _ & Hb & -> & ->).
  split; [done|]. exists response. split; [done|]. split; [done|].
  simpl. apply lookup_insert_eq.
Qed.

(** The paths of the tokens drawn in the concrete runs below. *)
Lemma audio_path_ok_1 :
  audio_path env_ok (after_reply boer_commando_jan_du_preez (lit "Hello") world0)
  = srv_app ++ [lit "media"; lit "00000000000040008000000000000001.wav"].
Proof. by vm_compute. Qed.

Lemma C4_witness :
  ∃ out w',
    post_chat env_ok (ask_jan true) world0 = (JSONResponse 200 out, w')
    ∧ audio_url out = Some (lit "/media/00000000000040008000000000000001.wav")
    ∧ fs w' !! (srv_app ++ [lit "media"; lit "00000000000040008000000000000001.wav"])
      = Some [Byte.x52; Byte.x49; Byte.x46; Byte.x46].
Proof.
  pose (w1 := after_reply boer_commando_jan_du_preez (lit "Hello") world0).
  assert (chat_endpoint env_ok (ask_jan true) world0
          = (Ok {| reply := lit "Goeie dag, ek is Jan.";
                   audio_url := Some (lit "/media/" ++ audio_name env_ok w1);
                   avatar := None |},
             set_fs (<[ audio_path env_ok w1 := concat (chunks wav_body) ]> (fs w1))
               (tick (tick (log_call
                  (speech_request (lit "Goeie dag, ek is Jan.") boer_commando_jan_du_preez)
                  (tick w1)))))) as Hc.
  { rewrite chat_endpoint_valid by (by vm_compute).
    assert (generate_chat_reply env_ok (persona_id (ask_jan true))
              (message (ask_jan true)) world0
            = (Ok (lit "Goeie dag, ek is Jan."), w1)) as -> by (by vm_compute).
    cbn [tts ask_jan persona_id]. rewrite synthesize_tts_eq. reflexivity. }
  assert (post_chat env_ok (ask_jan true) world0
          = (JSONResponse 200 {| reply := lit "Goeie dag, ek is Jan.";
                   audio_url := Some (lit "/media/" ++ audio_name env_ok w1);
                   avatar := None |},
             set_fs (<[ audio_path env_ok w1 := concat (chunks wav_body) ]> (fs w1))
               (tick (tick (log_call
                  (speech_request (lit "Goeie dag, ek is Jan.") boer_commando_jan_du_preez)
                  (tick w1)))))) as Hp.
  { unfold post_chat. by rewrite Hc. }
  eexists _, _. split; [exact Hp|].
  split; [by vm_compute|].
  destruct (C4_audio_url_names_written_file env_ok (ask_jan true) world0 200 _ _ _
              Hp eq_refl) as (_ & response & Hs & _ & Hf).
  vm_compute in Hs. injection Hs as <-.
  rewrite <- audio_path_ok_1. exact Hf.
Defined.

(** C5, as the code has it. A successful chat response carries the text
    content of the first choice of the completion with leading and trailing
    whitespace removed; that reply is non-empty exactly when the content has
    a character that is not whitespace. *)
Theorem C5_reply_is_stripped_completion env inp w status out w' :
  post_chat env inp w = (JSONResponse status out, w') →
  ∃ chat choice text,
    completion_at env (persona_id inp) (message inp) w = inr chat
    ∧ head (choices chat) = Some choice
    ∧ message_content choice = Some text
    ∧ reply out = strip text
    ∧ (reply out ≠ [] ↔ ∃ c, c ∈ text ∧ isspace c = false).
Proof.
  intros Hp. apply post_chat_json_inv in Hp as [Hc _].
  pose proof (chat_endpoint_ok_valid _ _ _ _ _ Hc) as Hv.
  rewrite (chat_endpoint_valid _ _ _ Hv) in Hc.
  destruct (generate_chat_reply _ _ _ _) as [[r|e] w1] eqn:Hg; [|done].
  apply generate_chat_reply_ok_inv in Hg as (chat & c & s & H1 & H2 & H3 & -> & ->).
  assert (reply out = strip s) as Hr.
  { destruct (tts inp); [|by injection Hc as <- _].
    destruct (synthesize_tts _ _ _ _) as [[u|e] w2]; [|done]. by injection Hc as <- _. }
  exists chat, c, s. rewrite Hr. repeat (split; [done|]). apply strip_nonempty_iff.
Qed.

Lemma C5_witness :
  ∃ out w',
    post_chat env_ok (ask_jan false) world0 = (JSONResponse 200 out, w')
    ∧ reply out = lit "Goeie dag, ek is Jan.".
Proof.
  eexists _, _. split; [by vm_compute|].
  destruct (C5_reply_is_stripped_completion env_ok (ask_jan false) world0 200 _ _ eq_refl)
    as (chat & c & s & H1 & H2 & H3 & H4 & _).
  vm_compute in H1. injection H1 as <-. injection H2 as <-. injection H3 as <-.
  exact H4.
Defined.

(** C5 fails as stated: a completion of blanks gives a successful response
    with an empty reply. *)
Lemma C5_counterexample :
  post_chat env_blank (ask_jan false) world0
  = (JSONResponse 200 {| reply := []; audio_url := None; avatar := None |},
     after_reply boer_commando_jan_du_preez (lit "Hello") world0).
Proof. by vm_compute. Qed.

(** C6, as the code has it. A call of the synthesizer that returns a url
    wrote exactly one file, the complete stream at the path of the fresh
    token, which is a new entry of the media directory when no file had that
    name; a call that returns [None] wrote nothing when the request was
    refused or the file could not be opened, and left the chunks received so
    far at that path, touching no other file, when the stream broke. *)
Theorem C6_files_written_by_synthesis env text pid w r w' :
  synthesize_tts env text pid w = (r, w') →
  match r with
  | Ok (Some url) =>
      ∃ response,
        speech_at env text pid w = inr response ∧ broken response = None
        ∧ fs w' = <[ audio_path env w := concat (chunks response) ]> (fs w)
        ∧ (fs w !! audio_path env w = None →
           dom (fs w') = {[ audio_path env w ]} ∪ dom (fs w)
           ∧ size (fs w') = S (size (fs w)))
  | Ok None =>
      (((∃ e, speech_at env text pid w = inl e) ∨ (∃ e, open_at env w = Some e))
       ∧ fs w' = fs w)
      ∨ (∃ response e,
           speech_at env text pid w = inr response ∧ open_at env w = None
           ∧ broken response = Some e
           ∧ fs w' = <[ audio_path env w := concat (chunks response) ]> (fs w))
  | Raise _ => False
  end.
Proof.
  rewrite synthesize_tts_eq. cbv zeta.
  destruct (speech_at _ _ _ _) as [e|response] eqn:Hs.
  { intros [= <- <-]. left. eauto. }
  destruct (open_at _ _) as [e|] eqn:Ho.
  { intros [= <- <-]. left. eauto. }
  destruct (broken response) as [e|] eqn:Hb; intros [= <- <-].
  { right. by exists response, e. }
  exists response. repeat (split; [done|]). simpl. intros Hfree. split.
  - apply dom_insert_L.
  - by apply map_size_insert_None.
Qed.

Lemma audio_path_ok_0 :
  audio_path env_ok world0
  = srv_app ++ [lit "media"; lit "00000000000040008000000000000000.wav"].
Proof. by vm_compute. Qed.

Lemma C6_witness :
  let run := synthesize_tts env_ok (lit "Goeie dag") boer_commando_jan_du_preez world0 in
  fst run = Ok (Some (lit "/media/00000000000040008000000000000000.wav"))
  ∧ fs (snd run)
    = {[ srv_app ++ [lit "media"; lit "00000000000040008000000000000000.wav"]
         := [Byte.x52; Byte.x49; Byte.x46; Byte.x46] ]}.
Proof.
  intros run.
  assert (run
          = (Ok (Some (lit "/media/" ++ audio_name env_ok world0)),
             set_fs (<[ audio_path env_ok world0 := concat (chunks wav_body) ]> (fs world0))
               (tick (tick (log_call
                  (speech_request (lit "Goeie dag") boer_commando_jan_du_preez)
                  (tick world0)))))) as Hrun.
  { unfold run. rewrite synthesize_tts_eq. reflexivity. }
  destruct (C6_files_written_by_synthesis env_ok (lit "Goeie dag")
              boer_commando_jan_du_preez world0 _ _ Hrun)
    as (response & Hs & _ & Hf & _).
  rewrite Hrun. cbn [fst snd]. split; [by vm_compute|].
  rewrite Hf. vm_compute in Hs. injection Hs as <-.
  rewrite audio_path_ok_0. apply insert_empty.
Defined.

(** C6 fails as stated: when the stream breaks, the call returns [None] and
    the chunk already received stays in the media directory. *)
Lemma C6_counterexample :
  let run := synthesize_tts env_broken_stream (lit "Goeie dag")
               boer_commando_jan_du_preez world0 in
  fst run = Ok None
  ∧ fs world0 = ∅
  ∧ fs (snd run)
    = {[ srv_app ++ [lit "media"; lit "00000000000040008000000000000000.wav"]
         := [Byte.x52; Byte.x49] ]}.
Proof.
  cbv zeta. rewrite synthesize_tts_eq.
  assert (audio_path env_broken_stream world0
          = srv_app ++ [lit "media"; lit "00000000000040008000000000000000.wav"])
    as Hpath by (by vm_compute).
  split; [reflexivity|]. split; [reflexivity|].
  change (<[ audio_path env_broken_stream world0 := [Byte.x52; Byte.x49] ]> ∅
          = ({[ srv_app ++ [lit "media"; lit "00000000000040008000000000000000.wav"]
                := [Byte.x52; Byte.x49] ]} : gmap Path bytes)).
  rewrite Hpath. apply insert_empty.
Qed.

(** C7. With a valid persona id and [tts] false, the only outbound call of
    the request is the completion request, no file is written, and a
    response that is sent carries no audio url. *)
Theorem C7_no_synthesis_without_tts env inp w resp w' :
  is_valid (persona_id inp) = true →
  tts inp = false →
  post_chat env inp w = (resp, w') →
  calls w' = calls w ++ [reply_request (persona_id inp) (message inp)]
  ∧ fs w' = fs w
  ∧ ∀ status out, resp = JSONResponse status out → audio_url out = None.
Proof.
  intros Hv Htts. unfold post_chat.
  rewrite (chat_endpoint_valid _ _ _ Hv), Htts.
  pose proof (generate_chat_reply_world env (persona_id inp) (message inp) w) as Hw.
  destruct (generate_chat_reply _ _ _ _) as [[r|[code d|e]] w1];
    simpl in Hw; subst w1; intros [= <- <-]; (split; [done|]); (split; [done|]);
    intros status out [=]; by subst.
Qed.

Lemma C7_witness :
  post_chat env_ok (ask_jan false) world0
  = (JSONResponse 200
       {| reply := lit "Goeie dag, ek is Jan."; audio_url := None; avatar := None |},
     after_reply boer_commando_jan_du_preez (lit "Hello") world0)
  ∧ fs (after_reply boer_commando_jan_du_preez (lit "Hello") world0) = fs world0.
Proof.
  split; [by vm_compute|].
  by destruct (C7_no_synthesis_without_tts env_ok (ask_jan false) world0 _ _
                 eq_refl eq_refl eq_refl) as (_ & H & _).
Defined.

(** C8. For a persona id that is not a key of the registry, the name used in
    the system prompt of the generator's request is "Unknown persona" and the
    voice of the synthesizer's request is "onyx"; for the four registered ids
    the name and the voice are the configured ones. *)
Theorem C8_registry_lookups :
  (∀ pid, PERSONA_NAMES !! pid = None →
     persona_name pid = lit "Unknown persona" ∧ voice pid = lit "onyx"
     ∧ (∀ env message w,
          calls (snd (generate_chat_reply env pid message w))
          = calls w ++ [ChatCompletionsCreate (lit "gpt-4o-mini")
                          [ {| role := lit "system";
                               content := system_prompt (lit "Unknown persona") |};
                            {| role := lit "user"; content := message |} ]])
     ∧ (∀ env text w,
          calls (snd (synthesize_tts env text pid w))
          = calls w ++ [AudioSpeechCreate (lit "gpt-4o-mini-tts") (lit "onyx") text]))
  ∧ (persona_name boer_commando_jan_du_preez = lit "Jan du Preez"
     ∧ voice boer_commando_jan_du_preez = lit "onyx")
  ∧ (persona_name afrikaner_woman_camp_anna_van_der_merwe = lit "Anna van der Merwe"
     ∧ voice afrikaner_woman_camp_anna_van_der_merwe = lit "coral")
  ∧ (persona_name black_man_with_boers_daniel_kgoathe = lit "Daniel Kgoathe"
     ∧ voice black_man_with_boers_daniel_kgoathe = lit "alloy")
  ∧ (persona_name british_soldier_arthur_jennings = lit "Private Arthur Jennings"
     ∧ voice british_soldier_arthur_jennings = lit "verse").
Proof.
  split; [|by vm_compute].
  intros pid Hn.
  assert (persona_name pid = lit "Unknown persona") as Hname.
  { unfold persona_name, dict_get. by rewrite Hn. }
  assert (voice pid = lit "onyx") as Hvoice.
  { apply registry_same_keys in Hn. unfold voice, dict_get. by rewrite Hn. }
  repeat split; [done..| |].
  - intros env message w. rewrite generate_chat_reply_world.
    unfold after_reply, reply_request. simpl. by rewrite Hname.
  - intros env text w. rewrite synthesize_tts_calls.
    unfold speech_request. by rewrite Hvoice.
Qed.

Lemma C8_witness :
  PERSONA_NAMES !! lit "napoleon" = None
  ∧ persona_name (lit "napoleon") = lit "Unknown persona"
  ∧ voice (lit "napoleon") = lit "onyx".
Proof.
  split; [by vm_compute|].
  destruct C8_registry_lookups as [H _].
  destruct (H (lit "napoleon")) as (Hn & Hv & _); [by vm_compute|].
  by split.
Defined.

(** C9, as the code has it. Two successful chat calls with the same persona
    id and message, each answered with an audio url: each url is "/media/"
    and the file name made from the UUID drawn in its own call, each call
    sends its own speech request and writes its own file, and nothing is
    looked up by the input. The code does not check that a name is unused:
    the two urls are equal exactly when the two UUIDs drawn are equal. *)
Theorem C9_url_follows_the_drawn_uuid env inp wa wa' outa urla wb wb' outb urlb :
  post_chat env inp wa = (JSONResponse 200 outa, wa') →
  audio_url outa = Some urla →
  post_chat env inp wb = (JSONResponse 200 outb, wb') →
  audio_url outb = Some urlb →
  let w1a := after_reply (persona_id inp) (message inp) wa in
  let w1b := after_reply (persona_id inp) (message inp) wb in
  (urla = urlb ↔ uuid_at env w1a = uuid_at env w1b)
  ∧ urla = lit "/media/" ++ audio_name env w1a
  ∧ urlb = lit "/media/" ++ audio_name env w1b
  ∧ calls wa' = calls wa ++ [ reply_request (persona_id inp) (message inp);
                              speech_request (reply outa) (persona_id inp) ]
  ∧ calls wb' = calls wb ++ [ reply_request (persona_id inp) (message inp);
                              speech_request (reply outb) (persona_id inp) ]
  ∧ is_Some (fs wa' !! audio_path env w1a)
  ∧ is_Some (fs wb' !! audio_path env w1b).
Proof.
  intros Ha Hua Hb Hub w1a w1b.
  apply post_chat_json_inv in Ha as [Ha _]. apply post_chat_json_inv in Hb as [Hb _].
  destruct (chat_endpoint_audio_inv _ _ _ _ _ _ Ha Hua)
    as (ra & _ & _ & _ & _ & -> & ->).
  destruct (chat_endpoint_audio_inv _ _ _ _ _ _ Hb Hub)
    as (rb & _ & _ & _ & _ & -> & ->).
  fold w1a w1b.
  split; [|split; [done|split; [done|split; [|split; [|split]]]]].
  - unfold audio_name. split.
    + intros E. apply app_inv_head in E.
      apply app_inv_tail in E. by apply hex_uuid4_inj in E.
    + by intros ->.
  - simpl. by rewrite <- app_assoc.
  - simpl. by rewrite <- app_assoc.
  - simpl. rewrite lookup_insert_eq. eauto.
  - simpl. rewrite lookup_insert_eq. eauto.
Qed.

Lemma C9_witness :
  let first := post_chat env_ok (ask_jan true) world0 in
  let second := post_chat env_ok (ask_jan true) (snd first) in
  fst first
  = JSONResponse 200
      {| reply := lit "Goeie dag, ek is Jan.";
         audio_url := Some (lit "/media/00000000000040008000000000000001.wav");
         avatar := None |}
  ∧ fst second
    = JSONResponse 200
        {| reply := lit "Goeie dag, ek is Jan.";
           audio_url := Some (lit "/media/00000000000040008000000000000005.wav");
           avatar := None |}
  ∧ lit "/media/00000000000040008000000000000001.wav"
    ≠ lit "/media/00000000000040008000000000000005.wav".
Proof.
  intros first second.
  split; [by vm_compute|]. split; [by vm_compute|].
  destruct (C9_url_follows_the_drawn_uuid env_ok (ask_jan true)
              world0 (snd first) _ _ (snd first) (snd second) _ _
              eq_refl eq_refl eq_refl eq_refl) as [Hiff _].
  intros E. apply Hiff in E. vm_compute in E. discriminate E.
Defined.

(** C9 fails as stated: when the random source gives the same sixteen bytes
    twice, two successful calls with the same input return the same audio
    url, and the second call overwrites the file of the first. *)
Lemma C9_counterexample :
  let first := post_chat env_same_random (ask_jan true) world0 in
  let second := post_chat env_same_random (ask_jan true) (snd first) in
  fst first
  = JSONResponse 200
      {| reply := lit "Goeie dag, ek is Jan.";
         audio_url := Some (lit "/media/00000000000040008000000000000007.wav");
         avatar := None |}
  ∧ fst second
    = JSONResponse 200
        {| reply := lit "Goeie dag, ek is Jan.";
           audio_url := Some (lit "/media/00000000000040008000000000000007.wav");
           avatar := None |}.
Proof. by vm_compute. Qed.

(** ** The maintenance script *)

Lemma keep_ids_allow_list s : s ∈ keep_ids ↔ s ∈ allow_list.
Proof.
  unfold keep_ids, allow_list.
  rewrite !elem_of_union, !elem_of_singleton, !elem_of_cons, elem_of_nil. tauto.
Qed.

Lemma in_keep_ids_record p v :
  persona_id_of p = Some v → hashable v = true → in_keep_ids v = Ok (allowed p).
Proof.
  intros Hp Hh. unfold allowed. rewrite Hp.
  destruct v; try done. simpl. f_equal.
  apply bool_decide_ext, keep_ids_allow_list.
Qed.

(** On well-formed records the comprehension is a plain filter. *)
Lemma keep_personas_records records :
  Forall (λ p, is_persona_record p = true) records →
  keep_personas records = Ok (List.filter allowed records).
Proof.
  induction 1 as [|p rest Hp _ IH]; [done|].
  unfold is_persona_record in Hp.
  destruct (persona_id_of p) as [v|] eqn:Hv; [|done].
  simpl. assert (getitem p (lit "persona_id") = Ok v) as ->.
  { destruct p; try done. simpl in *. by rewrite Hv. }
  unfold mbind, result_bind. rewrite (in_keep_ids_record p v Hv Hp), IH.
  by destruct (allowed p).
Qed.





(** When the comprehension raises, on a document without a personas list or
    with a malformed record, the file is left as it was. *)
Lemma update_personas_error_keeps_file data e :
  fst (update_personas data) = Raise e → snd (update_personas data) = data.
Proof.
  unfold update_personas. by destruct (update_corpus data).
Qed.

(** * Further properties of the code *)

(** ** What [strip] removes *)

Lemma lstrip_split s : ∃ ws, s = ws ++ lstrip s ∧ Forall (λ c, isspace c = true) ws.
Proof.
  induction s as [|a s (ws & E & Hws)]; simpl.
  - by exists [].
  - destruct (isspace a) eqn:Ha.
    + exists (a :: ws). split; [by rewrite E at 1 | by constructor].
    + by exists [].
Qed.

Lemma rstrip_split s : ∃ ws, s = rstrip s ++ ws ∧ Forall (λ c, isspace c = true) ws.
Proof.
  destruct (lstrip_split (rev s)) as (ws & E & Hws).
  exists (rev ws). split; [|by apply Forall_rev].
  unfold rstrip. rewrite <- rev_app_distr, <- E. by rewrite rev_involutive.
Qed.

Lemma strip_split s :
  ∃ pre post, s = pre ++ strip s ++ post
    ∧ Forall (λ c, isspace c = true) pre ∧ Forall (λ c, isspace c = true) post.
Proof.
  destruct (lstrip_split s) as (pre & E1 & Hpre).
  destruct (rstrip_split (lstrip s)) as (post & E2 & Hpost).
  exists pre, post. unfold strip. by rewrite <- E2.
Qed.

Lemma strip_first s c t : strip s = c :: t → isspace c = false.
Proof.
  unfold strip. intros E.
  destruct (rstrip_split (lstrip s)) as (ws & E2 & _).
  rewrite E in E2. by apply lstrip_head in E2.
Qed.

Lemma rstrip_last s t c : rstrip s = t ++ [c] → isspace c = false.
Proof.
  unfold rstrip. intros E. apply (f_equal (@rev N)) in E.
  rewrite rev_involutive, rev_app_distr in E. simpl in E.
  by apply lstrip_head in E.
Qed.

Lemma strip_last s t c : strip s = t ++ [c] → isspace c = false.
Proof. apply rstrip_last. Qed.

Lemma lstrip_fixed s : (∀ c t, s = c :: t → isspace c = false) → lstrip s = s.
Proof.
  destruct s as [|a s]; [done|]. intros H. simpl. by rewrite (H a s).
Qed.

Lemma rstrip_fixed s : (∀ t c, s = t ++ [c] → isspace c = false) → rstrip s = s.
Proof.
  intros H. unfold rstrip. rewrite lstrip_fixed; [apply rev_involutive|].
  intros c t E. apply (H (rev t) c).
  rewrite <- (rev_involutive s), E. simpl. done.
Qed.

Lemma strip_idempotent s : strip (strip s) = strip s.
Proof.
  unfold strip at 1. rewrite lstrip_fixed by apply strip_first.
  apply rstrip_fixed, strip_last.
Qed.

(** X1. A generated reply is the first choice's text without the whitespace
    around it: it neither begins nor ends with a whitespace character, and
    nothing but whitespace was removed. *)
Theorem reply_is_text_without_outer_whitespace env pid msg w reply w1 :
  generate_chat_reply env pid msg w = (Ok reply, w1) →
  ∃ chat choice text pre post,
    completion_at env pid msg w = inr chat
    ∧ head (choices chat) = Some choice
    ∧ message_content choice = Some text
    ∧ text = pre ++ reply ++ post
    ∧ Forall (λ c, isspace c = true) pre
    ∧ Forall (λ c, isspace c = true) post
    ∧ (∀ c t, reply = c :: t → isspace c = false)
    ∧ (∀ t c, reply = t ++ [c] → isspace c = false)
    ∧ strip reply = reply.
Proof.
  intros Hg.
  apply generate_chat_reply_ok_inv in Hg as (chat & c & s & H1 & H2 & H3 & -> & _).
  destruct (strip_split s) as (pre & post & E & Hpre & Hpost).
  exists chat, c, s, pre, post. repeat (split; [done|]).
  split; [apply strip_first|]. split; [apply strip_last|]. apply strip_idempotent.
Qed.

Lemma reply_is_text_without_outer_whitespace_witness :
  ∃ pre post,
    lit "  Goeie dag, ek is Jan. " = pre ++ lit "Goeie dag, ek is Jan." ++ post
    ∧ Forall (λ c, isspace c = true) pre
    ∧ Forall (λ c, isspace c = true) post.
Proof.
  destruct (reply_is_text_without_outer_whitespace env_ok
              boer_commando_jan_du_preez (lit "Hello") world0
              (lit "Goeie dag, ek is Jan.")
              (after_reply boer_commando_jan_du_preez (lit "Hello") world0))
    as (chat & c & s & pre & post & H1 & H2 & H3 & E & Hpre & Hpost & _);
    [by vm_compute|].
  vm_compute in H1. injection H1 as <-. injection H2 as <-. injection H3 as <-.
  by exists pre, post.
Defined.

(** ** The outcomes of a chat request *)

(** The response, by the validity of the id and the generator's outcome. *)
Lemma post_chat_cases env inp w :
  let resp := fst (post_chat env inp w) in
  match is_valid (persona_id inp),
        fst (generate_chat_reply env (persona_id inp) (message inp) w) with
  | false, _ => resp = ErrorResponse 400 (lit "Unknown persona_id")
  | true, Ok r =>
      ∃ url, resp = JSONResponse 200 {| reply := r; audio_url := url; avatar := None |}
  | true, Raise _ => resp = ErrorResponse 500 (lit "Internal Server Error")
  end.
Proof.
  cbv zeta. destruct (is_valid (persona_id inp)) eqn:Hv.
  - unfold post_chat. rewrite (chat_endpoint_valid _ _ _ Hv).
    destruct (generate_chat_reply _ _ _ _) as [[r|e] w1] eqn:Hg; simpl.
    + destruct (tts inp); [|by eexists].
      destruct (synthesize_tts_returns env r (persona_id inp) w1) as (u & w2 & ->).
      by eexists.
    + by destruct (generate_chat_reply_raise_inv _ _ _ _ _ _ Hg) as [[err ->] _].
  - unfold post_chat, chat_endpoint. by rewrite Hv.
Qed.

(** X2. The status of a chat response is 400, 500 or 200: 400 exactly for a
    persona id outside the registry, 500 exactly when the id is valid and
    the generator raises, 200 exactly when the id is valid and the generator
    returns; a response with status 200 has no avatar. *)
Theorem chat_status_classification env inp w :
  let resp := fst (post_chat env inp w) in
  let gen := fst (generate_chat_reply env (persona_id inp) (message inp) w) in
  (status_of resp = 400 ↔ PERSONA_NAMES !! persona_id inp = None)
  ∧ (status_of resp = 500 ↔ is_valid (persona_id inp) = true ∧ ∃ e, gen = Raise e)
  ∧ (status_of resp = 200 ↔ is_valid (persona_id inp) = true ∧ ∃ r, gen = Ok r)
  ∧ (∀ status out, resp = JSONResponse status out → status = 200 ∧ avatar out = None).
Proof.
  cbv zeta. pose proof (post_chat_cases env inp w) as H. cbv zeta in H.
  rewrite <- is_valid_false.
  destruct (is_valid (persona_id inp));
    [destruct (fst (generate_chat_reply _ _ _ _)) as [r|e]|].
  - destruct H as [url ->]. simpl.
    split; [split; done|]. split; [split; [done|by intros [_ [e [=]]]]|].
    split; [split; eauto|]. by intros status out [= <- <-].
  - rewrite H. simpl.
    split; [split; done|]. split; [split; eauto|].
    split; [split; [done|by intros [_ [r [=]]]]|]. done.
  - rewrite H. simpl.
    split; [split; done|]. split; [split; [done|by intros [[=] _]]|].
    split; [split; [done|by intros [[=] _]]|]. done.
Qed.

(** X3. An answer of the completion service without a choice, or whose first
    choice has no text, ends the request with status 500; the speech service
    is not called and no file is written. *)
Theorem unusable_completion_is_server_error env inp w chat :
  is_valid (persona_id inp) = true →
  completion_at env (persona_id inp) (message inp) w = inr chat →
  (choices chat = [] ∨ ∃ c, head (choices chat) = Some c ∧ message_content c = None) →
  let w' := after_reply (persona_id inp) (message inp) w in
  post_chat env inp w = (ErrorResponse 500 (lit "Internal Server Error"), w')
  ∧ (∃ cls, fst (generate_chat_reply env (persona_id inp) (message inp) w)
            = Raise (OtherException cls)
            ∧ exc_type cls = (if bool_decide (choices chat = [])
                              then lit "IndexError" else lit "AttributeError"))
  ∧ calls w' = calls w ++ [reply_request (persona_id inp) (message inp)]
  ∧ fs w' = fs w.
Proof.
  intros Hv Hc Hbad w'.
  assert (∃ cls, generate_chat_reply env (persona_id inp) (message inp) w
                 = (Raise (OtherException cls), w')
                 ∧ exc_type cls = (if bool_decide (choices chat = [])
                                   then lit "IndexError" else lit "AttributeError"))
    as (cls & Hg & Hcls).
  { unfold completion_at in Hc.
    unfold generate_chat_reply, client_chat_completions_create, first_choice,
      content_strip. unfold_py. rewrite Hc.
    destruct Hbad as [->|(c & Hh & Hm)]; [by eexists|].
    destruct (choices chat) as [|c' rest]; [done|]. injection Hh as ->.
    rewrite Hm. by eexists. }
  split; [|split; [|done]].
  - unfold post_chat. by rewrite (chat_endpoint_valid _ _ _ Hv), Hg.
  - exists cls. by rewrite Hg.
Qed.

Lemma unusable_completion_is_server_error_witness :
  post_chat env_no_choice (ask_jan true) world0
  = (ErrorResponse 500 (lit "Internal Server Error"),
     after_reply boer_commando_jan_du_preez (lit "Hello") world0).
Proof.
  apply (unusable_completion_is_server_error env_no_choice (ask_jan true) world0
           no_choice); [by vm_compute | by vm_compute | by left].
Defined.

Lemma generate_chat_reply_depends_on_completion env1 env2 pid msg w :
  completion_at env1 pid msg w = completion_at env2 pid msg w →
  generate_chat_reply env1 pid msg w = generate_chat_reply env2 pid msg w.
Proof.
  unfold completion_at. intros H.
  unfold generate_chat_reply, client_chat_completions_create. unfold_py.
  by rewrite H.
Qed.

(** X4. The status of a chat response and the reply it carries are decided by
    the completion service alone: two environments whose completion service
    gives the same answer give the same status and reply, whatever their
    speech service, random source and file system do. *)
Theorem reply_independent_of_speech_service env1 env2 inp w :
  completion_at env1 (persona_id inp) (message inp) w
  = completion_at env2 (persona_id inp) (message inp) w →
  status_of (fst (post_chat env1 inp w)) = status_of (fst (post_chat env2 inp w))
  ∧ response_reply (fst (post_chat env1 inp w))
    = response_reply (fst (post_chat env2 inp w)).
Proof.
  intros H.
  pose proof (post_chat_cases env1 inp w) as H1.
  pose proof (post_chat_cases env2 inp w) as H2. cbv zeta in H1, H2.
  rewrite (generate_chat_reply_depends_on_completion _ _ _ _ _ H) in H1.
  destruct (is_valid (persona_id inp));
    [destruct (fst (generate_chat_reply env2 _ _ _)) as [r|e]|].
  - destruct H1 as [u1 ->], H2 as [u2 ->]. done.
  - by rewrite H1, H2.
  - by rewrite H1, H2.
Qed.

Lemma reply_independent_of_speech_service_witness :
  response_reply (fst (post_chat env_ok (ask_jan true) world0))
  = response_reply (fst (post_chat env_tts_down (ask_jan true) world0)).
Proof.
  apply (reply_independent_of_speech_service env_ok env_tts_down (ask_jan true) world0).
  by vm_compute.
Defined.

(** X5. With [tts] set, once the reply is generated the request is answered
    with status 200 and that reply whatever the synthesizer does, and the
    outbound calls are the completion request followed by one speech request
    whose input is exactly the reply sent back. *)
Theorem speech_request_carries_the_reply env inp w reply w1 :
  is_valid (persona_id inp) = true →
  tts inp = true →
  generate_chat_reply env (persona_id inp) (message inp) w = (Ok reply, w1) →
  ∃ url w',
    post_chat env inp w
    = (JSONResponse 200 {| reply := reply; audio_url := url; avatar := None |}, w')
    ∧ calls w' = calls w ++ [ reply_request (persona_id inp) (message inp);
                              speech_request reply (persona_id inp) ].
Proof.
  intros Hv Htts Hg.
  pose proof (generate_chat_reply_world env (persona_id inp) (message inp) w) as Hw.
  rewrite Hg in Hw. simpl in Hw. subst w1.
  pose proof (synthesize_tts_calls env reply (persona_id inp)
                (after_reply (persona_id inp) (message inp) w)) as Hc.
  destruct (synthesize_tts_returns env reply (persona_id inp)
              (after_reply (persona_id inp) (message inp) w)) as (url & w' & Hs).
  rewrite Hs in Hc. simpl in Hc.
  exists url, w'. split.
  - unfold post_chat. by rewrite (chat_endpoint_valid _ _ _ Hv), Hg, Htts, Hs.
  - rewrite Hc. simpl. by rewrite <- app_assoc.
Qed.

Lemma speech_request_carries_the_reply_witness :
  ∃ url w',
    post_chat env_broken_stream (ask_jan true) world0
    = (JSONResponse 200
         {| reply := lit "Goeie dag, ek is Jan."; audio_url := url; avatar := None |}, w')
    ∧ calls w' = calls world0
                 ++ [ reply_request boer_commando_jan_du_preez (lit "Hello");
                      speech_request (lit "Goeie dag, ek is Jan.")
                        boer_commando_jan_du_preez ].
Proof.
  apply (speech_request_carries_the_reply env_broken_stream (ask_jan true) world0
           (lit "Goeie dag, ek is Jan.")
           (after_reply boer_commando_jan_du_preez (lit "Hello") world0));
    by vm_compute.
Defined.

(** ** What the synthesizer touches *)

Lemma audio_name_length env w : length (audio_name env w) = 36%nat.
Proof.
  unfold audio_name, hex. by rewrite length_app, hex_digits_length.
Qed.

(** The files after a call: as before, or with one entry set at the fresh
    path. *)
Lemma synthesize_tts_fs env text pid w :
  fs (snd (synthesize_tts env text pid w)) = fs w
  ∨ ∃ data, fs (snd (synthesize_tts env text pid w))
            = <[ audio_path env w := data ]> (fs w).
Proof.
  rewrite synthesize_tts_eq. cbv zeta.
  destruct (speech_at _ _ _ _) as [e|response]; [by left|].
  destruct (open_at _ _) as [e|]; [by left|].
  destruct (broken response) as [e|]; right; by eexists.
Qed.

(** X6. A call of the synthesizer changes no file other than the one at its
    fresh path, removes no file, and that path is directly inside the media
    directory: its last part has 36 characters and no slash, whatever the
    text and the persona id are. *)
Theorem synthesize_tts_touches_one_path env text pid w :
  let w' := snd (synthesize_tts env text pid w) in
  (∀ p, p ≠ audio_path env w → fs w' !! p = fs w !! p)
  ∧ dom (fs w) ⊆ dom (fs w')
  ∧ audio_path env w = MEDIA_DIR env ++ [audio_name env w]
  ∧ length (audio_name env w) = 36%nat
  ∧ Forall (λ c, c ≠ slash) (audio_name env w).
Proof.
  cbv zeta. pose proof (synthesize_tts_fs env text pid w) as Hfs.
  split; [|split; [|split; [done|split]]].
  - intros p Hp. destruct Hfs as [->|[data ->]]; [done|].
    by rewrite lookup_insert_ne.
  - destruct Hfs as [->|[data ->]]; [done|]. rewrite dom_insert_L. set_solver.
  - apply audio_name_length.
  - apply (audio_name_is_file (uuid_at env w)).
Qed.


Lemma snd_post_chat env inp w : snd (post_chat env inp w) = snd (chat_endpoint env inp w).
Proof.
  unfold post_chat. by destruct (chat_endpoint env inp w) as [[out|[code d|e]] w'].
Qed.

(** X8. A chat request, whatever its outcome, changes no file other than the
    one at the fresh audio path of that request and removes no file. *)
Theorem chat_touches_one_path env inp w :
  let w' := snd (post_chat env inp w) in
  (∀ p, p ≠ audio_path env (after_reply (persona_id inp) (message inp) w) →
        fs w' !! p = fs w !! p)
  ∧ dom (fs w) ⊆ dom (fs w').
Proof.
  cbv zeta. rewrite snd_post_chat.
  destruct (is_valid (persona_id inp)) eqn:Hv.
  2:{ unfold chat_endpoint. rewrite Hv. done. }
  rewrite (chat_endpoint_valid _ _ _ Hv).
  pose proof (generate_chat_reply_world env (persona_id inp) (message inp) w) as Hw.
  destruct (generate_chat_reply _ _ _ _) as [[r|e] w1]; simpl in Hw; subst w1; [|done].
  destruct (tts inp); [|done].
  pose proof (synthesize_tts_fs env r (persona_id inp)
                (after_reply (persona_id inp) (message inp) w)) as Hfs.
  destruct (synthesize_tts _ _ _ _) as [[u|e] w2]; simpl in *.
  - destruct Hfs as [->|[data ->]]; [done|]. split.
    + intros p Hp. by rewrite lookup_insert_ne.
    + rewrite dom_insert_L. set_solver.
  - destruct Hfs as [->|[data ->]]; [done|]. split.
    + intros p Hp. by rewrite lookup_insert_ne.
    + rewrite dom_insert_L. set_solver.
Qed.

(** ** The three tables of persona ids *)

(** X9. The gateway accepts exactly the ids the maintenance script keeps, and
    each of them has an entry in the voice table. *)
Theorem registry_tables_agree pid :
  (is_valid pid = true ↔ pid ∈ keep_ids)
  ∧ (is_valid pid = true ↔ is_Some (voice_map !! pid))
  ∧ (is_valid pid = true ↔ pid ∈ allow_list).
Proof.
  assert (is_valid pid = true ↔ pid ∈ allow_list) as H.
  { unfold allow_list. rewrite !elem_of_cons, elem_of_nil. split.
    - rewrite is_valid_true. unfold PERSONA_NAMES.
      rewrite !lookup_insert_is_Some, lookup_empty.
      intros [<-|[_ [<-|[_ [<-|[_ [<-|[_ [x [=]]]]]]]]]]; tauto.
    - intros [->|[->|[->|[->|[]]]]]; by vm_compute. }
  split; [by rewrite keep_ids_allow_list|]. split; [|done].
  rewrite is_valid_true, <- !not_eq_None_Some, registry_same_keys. done.
Qed.

(** ** More on the maintenance script *)

Lemma getitem_ok_inv o key v :
  getitem o key = Ok v → ∃ fields, o = JObj fields ∧ dict_lookup fields key = Some v.
Proof.
  destruct o; try done. simpl.
  destruct (dict_lookup fields key) as [x|] eqn:E; [|done].
  intros [= <-]. by exists fields.
Qed.

Lemma in_keep_ids_ok_inv v b : in_keep_ids v = Ok b → hashable v = true.
Proof. by destruct v. Qed.

Lemma keep_personas_cons_inv p rest kept :
  keep_personas (p :: rest) = Ok kept →
  ∃ pid (b : bool) kept',
    getitem p (lit "persona_id") = Ok pid ∧ in_keep_ids pid = Ok b
    ∧ keep_personas rest = Ok kept' ∧ kept = if b then p :: kept' else kept'.
Proof.
  simpl. unfold mbind, result_bind.
  destruct (getitem p (lit "persona_id")) as [pid|e] eqn:Hg; [|done].
  destruct (in_keep_ids pid) as [b|e] eqn:Hi; [|done].
  destruct (keep_personas rest) as [kept'|e] eqn:Hk; [|done].
  intros [= <-]. by exists pid, b, kept'.
Qed.

(** The comprehension completes only on persona records. *)
Lemma keep_personas_ok_records items kept :
  keep_personas items = Ok kept → Forall (λ p, is_persona_record p = true) items.
Proof.
  revert kept. induction items as [|p rest IH]; intros kept H; [constructor|].
  apply keep_personas_cons_inv in H as (pid & b & kept' & Hg & Hi & Hr & _).
  constructor; [|by eapply IH].
  apply getitem_ok_inv in Hg as (fields & -> & Hl).
  unfold is_persona_record. simpl. rewrite Hl. by eapply in_keep_ids_ok_inv.
Qed.

Lemma filter_allowed_fixed items : Forall (λ p, allowed p = true) (List.filter allowed items).
Proof.
  apply Forall_forall. intros p Hp. by apply filter_In in Hp as [_ Hp].
Qed.

Lemma dict_store_twice fields key v :
  dict_store (dict_store fields key v) key v = dict_store fields key v.
Proof.
  induction fields as [|[k x] rest IH]; simpl.
  - by rewrite bool_decide_eq_true_2.
  - destruct (bool_decide (k = key)) eqn:E; simpl; rewrite E; [done|by rewrite IH].
Qed.

Lemma dict_lookup_store_any fields key v :
  dict_lookup (dict_store fields key v) key = Some v.
Proof.
  induction fields as [|[k x] rest IH]; simpl.
  - by rewrite bool_decide_eq_true_2.
  - destruct (bool_decide (k = key)) eqn:E; simpl; by rewrite E.
Qed.


(** What a completed run did. *)
Lemma update_corpus_ok_inv data data' :
  update_corpus data = Ok data' →
  ∃ fields v items,
    data = JObj fields ∧ dict_lookup fields (lit "personas") = Some v
    ∧ iterate v = Ok items
    ∧ Forall (λ p, is_persona_record p = true) items
    ∧ data' = JObj (dict_store fields (lit "personas") (JArr (List.filter allowed items))).
Proof.
  unfold update_corpus, mbind, result_bind.
  destruct (getitem data (lit "personas")) as [v|e] eqn:Hg; [|done].
  apply getitem_ok_inv in Hg as (fields & -> & Hl).
  destruct (iterate v) as [items|e] eqn:Hi; [|done].
  destruct (keep_personas items) as [kept|e] eqn:Hk; [|done].
  pose proof (keep_personas_ok_records _ _ Hk) as Hr.
  rewrite (keep_personas_records _ Hr) in Hk. injection Hk as <-.
  simpl. intros [= <-]. by exists fields, v, items.
Qed.

Lemma update_personas_ok_inv data data' :
  update_personas data = (Ok tt, data') → update_corpus data = Ok data'.
Proof.
  unfold update_personas. destruct (update_corpus data); [|done]. by intros [= <-].
Qed.

(** X10. Running the script on a file it has already rewritten changes nothing:
    a second run completes and leaves the file as the first run wrote it. *)
Theorem update_personas_idempotent data data' :
  update_personas data = (Ok tt, data') →
  update_personas data' = (Ok tt, data').
Proof.
  intros H. apply update_personas_ok_inv in H.
  apply update_corpus_ok_inv in H as (fields & v & items & -> & Hl & Hi & Hr & ->).
  unfold update_personas, update_corpus, mbind, result_bind. simpl.
  rewrite dict_lookup_store_any. simpl.
  assert (Forall (λ p, is_persona_record p = true) (List.filter allowed items)) as Hr'.
  { apply Forall_forall. intros p Hp. apply filter_In in Hp as [Hp _].
    by apply (proj1 (Forall_forall _ _) Hr). }
  rewrite (keep_personas_records _ Hr').
  assert (List.filter allowed (List.filter allowed items) = List.filter allowed items) as ->.
  { apply forallb_filter_id, forallb_forall. intros p Hp.
    by apply filter_In in Hp as [_ Hp]. }
  by rewrite dict_store_twice.
Qed.

Lemma update_personas_idempotent_witness :
  update_personas (snd (update_personas corpus0))
  = (Ok tt, snd (update_personas corpus0)).
Proof.
  apply (update_personas_idempotent corpus0). by vm_compute.
Defined.

(** X11. After any run that completes, also one on a personas entry that was not
    a list, the personas entry is a list: the items of the old entry whose
    persona id is one of the four ids, in their order and unchanged; every
    item of the old entry was a persona record. *)
Theorem update_personas_result_is_allowed data data' :
  update_personas data = (Ok tt, data') →
  ∃ old items,
    getitem data (lit "personas") = Ok old ∧ iterate old = Ok items
    ∧ Forall (λ p, is_persona_record p = true) items
    ∧ getitem data' (lit "personas") = Ok (JArr (List.filter allowed items))
    ∧ Forall (λ p, allowed p = true) (List.filter allowed items)
    ∧ List.filter allowed items `sublist_of` items.
Proof.
  intros H. apply update_personas_ok_inv in H.
  apply update_corpus_ok_inv in H as (fields & v & items & -> & Hl & Hi & Hr & ->).
  exists v, items. simpl. rewrite Hl, dict_lookup_store_any.
  repeat (split; [done|]). split; [apply filter_allowed_fixed|].
  clear. induction items as [|p rest IH]; simpl; [constructor|].
  destruct (allowed p); by constructor.
Qed.

Lemma update_personas_result_is_allowed_witness :
  getitem (snd (update_personas corpus0)) (lit "personas")
  = Ok (JArr [ record "boer_commando_jan_du_preez" 1871;
               record "british_soldier_arthur_jennings" 1878;
               record "boer_commando_jan_du_preez" 1872 ]).
Proof.
  destruct (update_personas_result_is_allowed corpus0 (snd (update_personas corpus0)))
    as (old & items & H1 & H2 & _ & H4 & _); [by vm_compute|].
  vm_compute in H1. injection H1 as <-. vm_compute in H2. injection H2 as <-.
  rewrite H4. by vm_compute.
Defined.



Lemma keep_personas_stops_at_missing_id good bad_fields rest :
  Forall (λ p, is_persona_record p = true) good →
  dict_lookup bad_fields (lit "persona_id") = None →
  keep_personas (good ++ JObj bad_fields :: rest) = KeyError (lit "persona_id").
Proof.
  intros Hgood Hbad. induction Hgood as [|p good Hp _ IH]; simpl.
  - by rewrite Hbad.
  - unfold is_persona_record in Hp.
    destruct (persona_id_of p) as [v|] eqn:Hv; [|done].
    assert (getitem p (lit "persona_id") = Ok v) as ->.
    { destruct p; try done. simpl in *. by rewrite Hv. }
    unfold mbind, result_bind. rewrite (in_keep_ids_record p v Hv Hp).
    simpl in IH. by rewrite IH.
Qed.

(** X13. One record without a [persona_id] key, anywhere after well-formed
    records, makes the whole run fail with [KeyError: 'persona_id']; the
    file is left as it was, so the records before it are not filtered
    either. *)
Theorem record_without_id_aborts_run fields good bad_fields rest :
  dict_lookup fields (lit "personas") = Some (JArr (good ++ JObj bad_fields :: rest)) →
  Forall (λ p, is_persona_record p = true) good →
  dict_lookup bad_fields (lit "persona_id") = None →
  update_personas (JObj fields) = (KeyError (lit "persona_id"), JObj fields).
Proof.
  intros Hl Hgood Hbad. unfold update_personas, update_corpus. simpl. rewrite Hl.
  unfold mbind, result_bind. simpl.
  by rewrite (keep_personas_stops_at_missing_id _ _ _ Hgood Hbad).
Qed.

Lemma record_without_id_aborts_run_witness :
  update_personas corpus_bad = (KeyError (lit "persona_id"), corpus_bad).
Proof.
  apply (record_without_id_aborts_run _
           [ record "boer_commando_jan_du_preez" 1871 ]
           [ (lit "name", JStr (lit "no id")) ] []);
    [by vm_compute | by repeat constructor | by vm_compute].
Defined.

(** X14. A document that is an object without a ["personas"] key makes the run
    fail with [KeyError: 'personas'], and a document that is not an object
    makes it fail as well; in both cases the file is left as it was. *)
Theorem document_without_personas_aborts_run data :
  (∀ fields, data = JObj fields → dict_lookup fields (lit "personas") = None) →
  (∃ e, fst (update_personas data) = Raise e)
  ∧ snd (update_personas data) = data
  ∧ (∀ fields, data = JObj fields →
       fst (update_personas data) = KeyError (lit "personas")).
Proof.
  intros H. unfold update_personas, update_corpus, mbind, result_bind.
  destruct data; simpl; try (split; [by eexists|split; [done|by intros ? [=]]]).
  rewrite (H fields eq_refl). simpl. split; [by eexists|]. split; done.
Qed.

Lemma document_without_personas_aborts_run_witness :
  update_personas (JObj [ (lit "people", JArr []) ])
  = (KeyError (lit "personas"), JObj [ (lit "people", JArr []) ]).
Proof.
  destruct (document_without_personas_aborts_run (JObj [ (lit "people", JArr []) ]))
    as (_ & H2 & H3); [by intros fields [= <-]|].
  rewrite (surjective_pairing (update_personas _)), H2, (H3 _ eq_refl). done.
Defined.

(** ** The no-cache middleware *)

Lemma headers_get_set key value raw :
  headers_get key (headers_set key value raw) = Some value.
Proof.
  induction raw as [|[k v] rest IH]; simpl.
  - by rewrite bool_decide_eq_true_2.
  - destruct (bool_decide (k = key)) eqn:E; simpl.
    + by rewrite bool_decide_eq_true_2.
    + by rewrite E.
Qed.

Lemma filter_removed_key (key : str) (raw : list (str * str)) :
  List.filter (λ kv, bool_decide (fst kv = key))
    (List.filter (λ kv, negb (bool_decide (fst kv = key))) raw) = [].
Proof.
  induction raw as [|[k v] rest IH]; simpl; [done|].
  destruct (bool_decide (k = key)) eqn:E; simpl; [exact IH|].
  rewrite E. exact IH.
Qed.

Lemma filter_other_key (key other : str) (raw : list (str * str)) :
  other ≠ key →
  List.filter (λ kv, bool_decide (fst kv = other))
    (List.filter (λ kv, negb (bool_decide (fst kv = key))) raw)
  = List.filter (λ kv, bool_decide (fst kv = other)) raw.
Proof.
  intros Hne. induction raw as [|[k v] rest IH]; simpl; [done|].
  destruct (bool_decide (k = key)) eqn:E; simpl.
  - apply bool_decide_eq_true in E as ->. by rewrite bool_decide_eq_false_2.
  - by rewrite IH.
Qed.

(** After an assignment the name occurs exactly once. *)
Lemma headers_set_once key value raw :
  List.filter (λ kv, bool_decide (fst kv = key)) (headers_set key value raw)
  = [(key, value)].
Proof.
  induction raw as [|[k v] rest IH]; simpl.
  - by rewrite bool_decide_eq_true_2.
  - destruct (bool_decide (k = key)) eqn:E; simpl.
    + rewrite bool_decide_eq_true_2 by done. by rewrite filter_removed_key.
    + by rewrite E.
Qed.

(** The entries of every other name are kept, in their order. *)
Lemma headers_set_other key value other raw :
  other ≠ key →
  List.filter (λ kv, bool_decide (fst kv = other)) (headers_set key value raw)
  = List.filter (λ kv, bool_decide (fst kv = other)) raw.
Proof.
  intros Hne. induction raw as [|[k v] rest IH]; simpl.
  - by rewrite bool_decide_eq_false_2.
  - destruct (bool_decide (k = key)) eqn:E; simpl.
    + apply bool_decide_eq_true in E as ->.
      rewrite !bool_decide_eq_false_2 by done. by apply filter_other_key.
    + by rewrite IH.
Qed.

Lemma headers_get_filter key raw :
  headers_get key raw = head (map snd (List.filter (λ kv, bool_decide (fst kv = key)) raw)).
Proof.
  induction raw as [|[k v] rest IH]; simpl; [done|].
  by destruct (bool_decide (k = key)).
Qed.

Lemma headers_get_set_other key value other raw :
  other ≠ key → headers_get other (headers_set key value raw) = headers_get other raw.
Proof.
  intros Hne. by rewrite !headers_get_filter, headers_set_other.
Qed.

Lemma startswith_spec s prefix : startswith s prefix = true ↔ ∃ rest, s = prefix ++ rest.
Proof.
  revert s. induction prefix as [|p prefix IH]; intros s.
  - destruct s; simpl; split; eauto.
  - destruct s as [|c s]; simpl; [split; [done | by intros [rest [=]]]|].
    rewrite andb_true_iff, N.eqb_eq, IH. split.
    + intros [-> [rest ->]]. by exists rest.
    + intros [rest [= -> ->]]. eauto.
Qed.

(** X15. For a path that begins with "/ui/", whatever response the inner
    handler produced comes back with the same status and body, with each of
    [cache-control], [pragma] and [expires] present exactly once with the
    no-cache value, also when the inner response already carried them, and
    with the entries of every other header name unchanged. *)
Theorem ui_response_is_not_cacheable path call_next w resp w' :
  startswith path (lit "/ui/") = true →
  call_next w = (Ok resp, w') →
  ∃ resp',
    no_cache_for_ui path call_next w = (Ok resp', w')
    ∧ resp_status resp' = resp_status resp
    ∧ resp_body resp' = resp_body resp
    ∧ List.filter (λ kv, bool_decide (fst kv = lit "cache-control")) (resp_headers resp')
      = [(lit "cache-control", lit "no-store, no-cache, must-revalidate, max-age=0")]
    ∧ List.filter (λ kv, bool_decide (fst kv = lit "pragma")) (resp_headers resp')
      = [(lit "pragma", lit "no-cache")]
    ∧ List.filter (λ kv, bool_decide (fst kv = lit "expires")) (resp_headers resp')
      = [(lit "expires", lit "0")]
    ∧ (∀ other,
         other ≠ lit "cache-control" → other ≠ lit "pragma" → other ≠ lit "expires" →
         List.filter (λ kv, bool_decide (fst kv = other)) (resp_headers resp')
         = List.filter (λ kv, bool_decide (fst kv = other)) (resp_headers resp)).
Proof.
  intros Hp Hc. unfold no_cache_for_ui. unfold_py. rewrite Hc, Hp.
  eexists. split; [reflexivity|]. simpl. unfold headers_setitem.
  change (ascii_lower (lit "Cache-Control")) with (lit "cache-control").
  change (ascii_lower (lit "Pragma")) with (lit "pragma").
  change (ascii_lower (lit "Expires")) with (lit "expires").
  repeat (split; [done|]). split; [|split; [|split]].
  - rewrite !headers_set_other by done. apply headers_set_once.
  - rewrite headers_set_other by done. apply headers_set_once.
  - apply headers_set_once.
  - intros other H1 H2 H3. by rewrite !headers_set_other.
Qed.

Lemma ui_response_is_not_cacheable_witness :
  ∃ resp',
    no_cache_for_ui (lit "/ui/index.html") serve_index world0 = (Ok resp', world0)
    ∧ headers_get (lit "cache-control") (resp_headers resp')
      = Some (lit "no-store, no-cache, must-revalidate, max-age=0")
    ∧ headers_get (lit "etag") (resp_headers resp') = Some (lit "abc").
Proof.
  destruct (ui_response_is_not_cacheable (lit "/ui/index.html") serve_index world0
              index_page world0) as (resp' & H & _ & _ & Hc & _ & _ & Ho);
    [by vm_compute..|].
  exists resp'. split; [done|]. rewrite !headers_get_filter. split.
  - by rewrite Hc.
  - rewrite Ho by done. by vm_compute.
Defined.

(** X16. For a path that does not begin with "/ui/", the bare "/ui" included,
    the middleware is transparent: response, exception and world are those
    of the inner handler. *)
Theorem other_paths_pass_through path call_next w :
  startswith path (lit "/ui/") = false →
  no_cache_for_ui path call_next w = call_next w.
Proof.
  intros Hp. unfold no_cache_for_ui. unfold_py. rewrite Hp.
  by destruct (call_next w) as [[resp|e] w'].
Qed.

Lemma other_paths_pass_through_witness :
  no_cache_for_ui (lit "/ui") serve_index world0 = (Ok index_page, world0).
Proof.
  rewrite (other_paths_pass_through (lit "/ui") serve_index world0); by vm_compute.
Defined.

(** ** The API key *)


(** X18. For a key that begins with "sk-" and has more than ten characters, the
    masked field has eleven characters: the first six of the key, an
    ellipsis and the last four; for a key of twelve characters or more it
    differs from the key. *)
Theorem masked_key_shape key :
  startswith key (lit "sk-") = true →
  (10 < length key)%nat →
  let masked := masked_key key in
  length masked = 11%nat
  ∧ take 6 masked = take 6 key
  ∧ masked !! 6%nat = Some ellipsis
  ∧ drop 7 masked = drop (length key - 4) key
  ∧ ((11 < length key)%nat → masked ≠ key).
Proof.
  intros Hs Hl. cbv zeta. unfold masked_key, slice_to, slice_last.
  rewrite Hs. apply Nat.ltb_lt in Hl as Hl'. rewrite Hl'. simpl andb. cbv iota.
  assert (length (take 6 key) = 6%nat) as H6 by (rewrite length_take; lia).
  assert (length (drop (length key - 4) key) = 4%nat) as H4
    by (rewrite length_drop; lia).
  split; [|split; [|split; [|split]]].
  - rewrite !length_app, H6, H4. done.
  - rewrite take_app_length'; done.
  - exact (list_lookup_middle (take 6 key) (drop (length key - 4) key) ellipsis 6 (eq_sym H6)).
  - rewrite (app_assoc (take 6 key) [ellipsis]).
    apply drop_app_length'. rewrite length_app, H6. done.
  - intros Hlong E. apply (f_equal length) in E.
    rewrite !length_app, H6, H4 in E. simpl in E. lia.
Qed.

Lemma masked_key_shape_witness :
  masked_key (lit "sk-proj-0123456789abcdef") = lit "sk-pro" ++ [ellipsis] ++ lit "cdef".
Proof.
  destruct (masked_key_shape (lit "sk-proj-0123456789abcdef"))
    as (_ & H1 & H2 & H3 & _); [by vm_compute | vm_compute; lia |].
  by vm_compute.
Defined.

(** X19. The report of [/_env] depends on the key only through its first six and
    last four characters: two keys that both begin with "sk-", are longer
    than ten characters and agree on those ten characters give the same
    report, so the characters in between are not disclosed. *)
Theorem env_report_hides_middle_of_key environ1 environ2 k1 k2 resolved :
  environ1 !! lit "OPENAI_API_KEY" = Some k1 →
  environ2 !! lit "OPENAI_API_KEY" = Some k2 →
  startswith k1 (lit "sk-") = true → startswith k2 (lit "sk-") = true →
  (10 < length k1)%nat → (10 < length k2)%nat →
  take 6 k1 = take 6 k2 →
  drop (length k1 - 4) k1 = drop (length k2 - 4) k2 →
  _env environ1 resolved = _env environ2 resolved.
Proof.
  intros E1 E2 S1 S2 L1 L2 Ht Hd.
  unfold _env, os_getenv, dict_get, masked_key, slice_to, slice_last.
  rewrite E1, E2, S1, S2.
  apply Nat.ltb_lt in L1 as L1'. apply Nat.ltb_lt in L2 as L2'. rewrite L1', L2'.
  rewrite Ht, Hd.
  assert (k1 ≠ []) by (intros ->; simpl in L1; lia).
  assert (k2 ≠ []) by (intros ->; simpl in L2; lia).
  by rewrite !bool_decide_eq_false_2.
Qed.

Lemma env_report_hides_middle_of_key_witness :
  _env environ0 (lit "/srv/app/.env")
  = _env {[ lit "OPENAI_API_KEY" := lit "sk-proj-another-secret-cdef" ]}
         (lit "/srv/app/.env").
Proof.
  apply (env_report_hides_middle_of_key environ0
           {[ lit "OPENAI_API_KEY" := lit "sk-proj-another-secret-cdef" ]}
           (lit "sk-proj-0123456789abcdef") (lit "sk-proj-another-secret-cdef"));
    try (by vm_compute); vm_compute; lia.
Defined.
